(** * The HTTP execution core of the Strava client

    A shallow embedding of the retry executor ([src/http/retry.ts]), the
    request deduplicator ([src/http/deduplication.ts]), the error mapping of
    the request layer ([src/http/request.ts], [src/errors.ts]), the rate
    limiter ([src/http/rate-limiter.ts]), the expiry-aware token manager
    ([src/auth/oauth.ts], [src/auth/token-store.ts], [src/auth/scopes.ts]) and
    the pagination helpers ([src/utils/pagination.ts]).

    Conventions of the model.
    - A JavaScript [number] is an exact integer ([Z]): delays and timestamps
      are milliseconds, status codes and identifiers are integers; infinities
      and fractions are outside the model.  [NaN] is in the model where the
      code can produce it: [parseInt] yields a [JsNum], and so do the fields
      that hold what it read.
    - An optional field ([x?: T]) is an [option]; [None] is [undefined].
    - An [async] function is a state transformer that yields how its promise
      settles ([Resolved] or [Rejected]) together with the new state and the
      effects it performed, in program order. *)

From Stdlib Require Import ZArith Lia.
From stdpp Require Import gmap strings list fin_maps pretty.

Open Scope Z_scope.

(** ** JavaScript values and the error classes of [src/errors.ts] *)

Inductive ErrorClass : Type :=
| ClsStravaError
| ClsStravaAuthError
| ClsStravaRateLimitError
| ClsStravaNotFoundError
| ClsStravaValidationError
| ClsStravaServerError.

(** A number that may be [NaN]: what [parseInt] yields, and what the fields
    that are assigned its result hold. *)
Inductive JsNum : Type :=
| Num (n : Z)
| NaN.

(** [String(x)] of such a number. *)
Definition num_String (x : JsNum) : string :=
  match x with
  | Num n => pretty n
  | NaN => "NaN"
  end.

(** An optional number in a template literal. *)
Definition template_number (x : option JsNum) : string :=
  match x with
  | Some x => num_String x
  | None => "undefined"
  end.

(** [a < b]: false when one of the two is [NaN]. *)
Definition num_lt (a b : JsNum) : bool :=
  match a, b with
  | Num a, Num b => a <? b
  | _, _ => false
  end.

(** The values the core handles as [unknown]: thrown values, parsed response
    bodies, query values.  [JsError] is an instance of the built-in [Error]
    that is not a [StravaError] (it has a name and a message and no
    [statusCode] property); [JsStrava] is an instance of [StravaError] or of
    one of its subclasses, with the fields the constructors assign. *)
#[local] Unset Elimination Schemes.
Inductive JsValue : Type :=
| JsUndefined
| JsNull
| JsBool (b : bool)
| JsNumber (n : Z)
| JsString (s : string)
| JsArray (items : list JsValue)
| JsObject (props : list (string * JsValue))
| JsError (name message : string)
| JsStrava (cls : ErrorClass) (message : string) (statusCode : option Z)
           (response : JsValue) (retryAfter limit usage : option JsNum)
           (errors : option JsValue).
#[local] Set Elimination Schemes.

Definition class_name (c : ErrorClass) : string :=
  match c with
  | ClsStravaError => "StravaError"
  | ClsStravaAuthError => "StravaAuthError"
  | ClsStravaRateLimitError => "StravaRateLimitError"
  | ClsStravaNotFoundError => "StravaNotFoundError"
  | ClsStravaValidationError => "StravaValidationError"
  | ClsStravaServerError => "StravaServerError"
  end.

(** The constructors of the six classes. *)
Definition StravaError (message : string) (statusCode : option Z) (response : JsValue)
    : JsValue :=
  JsStrava ClsStravaError message statusCode response None None None None.

Definition StravaAuthError (message : string) (statusCode : option Z) (response : JsValue)
    : JsValue :=
  JsStrava ClsStravaAuthError message statusCode response None None None None.

Definition StravaRateLimitError (message : string) (statusCode : option Z) (response : JsValue)
    (retryAfter limit usage : option JsNum) : JsValue :=
  JsStrava ClsStravaRateLimitError message statusCode response retryAfter limit usage None.

Definition StravaNotFoundError (message : string) (statusCode : option Z) (response : JsValue)
    : JsValue :=
  JsStrava ClsStravaNotFoundError message statusCode response None None None None.

Definition StravaValidationError (message : string) (statusCode : option Z) (response : JsValue)
    (errors : option JsValue) : JsValue :=
  JsStrava ClsStravaValidationError message statusCode response None None None errors.

Definition StravaServerError (message : string) (statusCode : option Z) (response : JsValue)
    : JsValue :=
  JsStrava ClsStravaServerError message statusCode response None None None None.

(** [e instanceof StravaError] and [e instanceof Error]. *)
Definition instanceof_StravaError (e : JsValue) : bool :=
  match e with JsStrava _ _ _ _ _ _ _ _ => true | _ => false end.

Definition instanceof_Error (e : JsValue) : bool :=
  match e with JsError _ _ | JsStrava _ _ _ _ _ _ _ _ => true | _ => false end.

Definition instanceof_StravaRateLimitError (e : JsValue) : bool :=
  match e with JsStrava ClsStravaRateLimitError _ _ _ _ _ _ _ => true | _ => false end.

(** [e.name] and [e.message] of an [Error] instance. *)
Definition error_name (e : JsValue) : string :=
  match e with
  | JsError n _ => n
  | JsStrava c _ _ _ _ _ _ _ => class_name c
  | _ => ""
  end.

Definition error_message (e : JsValue) : string :=
  match e with
  | JsError _ m => m
  | JsStrava _ m _ _ _ _ _ _ => m
  | _ => ""
  end.

(** [e.retryAfter] of a [StravaRateLimitError]. *)
Definition error_retryAfter (e : JsValue) : option JsNum :=
  match e with JsStrava _ _ _ _ retryAfter _ _ _ => retryAfter | _ => None end.

(** The class of a [StravaError] instance. *)
Definition error_class (e : JsValue) : option ErrorClass :=
  match e with JsStrava c _ _ _ _ _ _ _ => Some c | _ => None end.

(** Truthiness ([if (v)], [v && ...], [v || ...]). *)
Definition truthy (v : JsValue) : bool :=
  match v with
  | JsUndefined | JsNull => false
  | JsBool b => b
  | JsNumber n => negb (n =? 0)
  | JsString s => negb (String.eqb s "")
  | _ => true
  end.

(** [a || b] on optional numbers: [a] unless it is [undefined] or [0]. *)
Definition or_else (a b : option Z) : option Z :=
  match a with
  | Some n => if n =? 0 then b else Some n
  | None => b
  end.

(** [typeof v === "object"]. *)
Definition typeof_object (v : JsValue) : bool :=
  match v with
  | JsNull | JsArray _ | JsObject _ | JsError _ _ | JsStrava _ _ _ _ _ _ _ _ => true
  | _ => false
  end.

(** Property lookup in a plain object, first binding wins. *)
Fixpoint get_prop (k : string) (props : list (string * JsValue)) : option JsValue :=
  match props with
  | [] => None
  | (k', v) :: rest => if String.eqb k k' then Some v else get_prop k rest
  end.

(** How a promise settles. *)
Inductive Settled (T : Type) : Type :=
| Resolved (v : T)
| Rejected (e : JsValue).
Arguments Resolved {T} v.
Arguments Rejected {T} e.

(** ** Retry with exponential backoff ([src/http/retry.ts]) *)

(** [RetryConfig] of [src/types/common.ts]: every field is optional. *)
Record RetryConfig : Type := {
  opt_maxAttempts : option Z;
  opt_initialDelay : option Z;
  opt_maxDelay : option Z;
  opt_backoffFactor : option Z;
  opt_retryableStatusCodes : option (list Z)
}.

(** [Required<RetryConfig>]. *)
Record RequiredRetryConfig : Type := {
  maxAttempts : Z;
  initialDelay : Z;
  maxDelay : Z;
  backoffFactor : Z;
  retryableStatusCodes : list Z
}.

Definition DEFAULT_RETRY_CONFIG : RequiredRetryConfig := {|
  maxAttempts := 3;
  initialDelay := 1000;
  maxDelay := 10000;
  backoffFactor := 2;
  retryableStatusCodes := [429; 500; 502; 503; 504]
|}.

(** [{ ...DEFAULT_RETRY_CONFIG, ...config }]: a field that [config] has
    replaces the default. *)
Definition merge_config (config : option RetryConfig) : RequiredRetryConfig :=
  match config with
  | None => DEFAULT_RETRY_CONFIG
  | Some c => {|
      maxAttempts := default (maxAttempts DEFAULT_RETRY_CONFIG) (opt_maxAttempts c);
      initialDelay := default (initialDelay DEFAULT_RETRY_CONFIG) (opt_initialDelay c);
      maxDelay := default (maxDelay DEFAULT_RETRY_CONFIG) (opt_maxDelay c);
      backoffFactor := default (backoffFactor DEFAULT_RETRY_CONFIG) (opt_backoffFactor c);
      retryableStatusCodes :=
        default (retryableStatusCodes DEFAULT_RETRY_CONFIG) (opt_retryableStatusCodes c)
    |}
  end.

(** [Math.pow(config.backoffFactor, attempt - 1)] is [Z.pow]; the two agree
    for the attempt numbers [withRetry] uses ([attempt >= 1]). *)
Definition calculateDelay (attempt : Z) (config : RequiredRetryConfig) (retryAfter : option Z)
    : Z :=
  match retryAfter with
  | Some retryAfter => Z.min (retryAfter * 1000) (maxDelay config)
  | None =>
      let delay := initialDelay config * backoffFactor config ^ (attempt - 1) in
      Z.min delay (maxDelay config)
  end.

(** [array.includes(x)]. *)
Definition includes (codes : list Z) (x : Z) : bool := existsb (Z.eqb x) codes.

Definition isRetryable (statusCode : option Z) (config : RequiredRetryConfig) : bool :=
  match statusCode with
  | None => true
  | Some statusCode => includes (retryableStatusCodes config) statusCode
  end.

(** [error && typeof error === "object" && "statusCode" in error
     ? error.statusCode as number : undefined].  A plain object is read
    through the cast: its [statusCode] property is a number or [undefined]. *)
Definition statusCodeOf (error : JsValue) : option Z :=
  if truthy error && typeof_object error then
    match error with
    | JsStrava _ _ statusCode _ _ _ _ _ => statusCode
    | JsObject props =>
        match get_prop "statusCode" props with
        | Some (JsNumber n) => Some n
        | _ => None
        end
    | _ => None
    end
  else None.

(** What one run of [withRetry] does, in order: the calls of [fn] with the
    attempt number and how each settled, and the sleeps. *)
Inductive RetryEvent (T : Type) : Type :=
| EvAttempt (attempt : Z) (r : Settled T)
| EvSleep (ms : Z).
Arguments EvAttempt {T} attempt r.
Arguments EvSleep {T} ms.

Section WithRetry.
Context {T S : Type}.

(** [fn : () => Promise<T>] acts on the state [S] of its environment. *)
Variable fn : S -> Settled T * S.
Variable retryConfig : RequiredRetryConfig.
Variable getRetryAfter : option (JsValue -> option Z).

(** The [for] loop of [withRetry], entered at its condition with the
    current [attempt] and [lastError].  [fuel] bounds the number of
    iterations; [None] as the first component means it ran out. *)
Fixpoint retry_loop (fuel : nat) (attempt : Z) (lastError : JsValue) (s : S)
    : option (Settled T) * S * list (RetryEvent T) :=
  match fuel with
  | O => (None, s, [])
  | Datatypes.S fuel' =>
      if attempt <=? maxAttempts retryConfig then
        match fn s with
        | (Resolved v, s1) => (Some (Resolved v), s1, [EvAttempt attempt (Resolved v)])
        | (Rejected error, s1) =>
            let lastError := error in
            if attempt >=? maxAttempts retryConfig then
              (* break; throw lastError *)
              (Some (Rejected lastError), s1, [EvAttempt attempt (Rejected error)])
            else
              let statusCode := statusCodeOf error in
              if negb (isRetryable statusCode retryConfig) then
                (Some (Rejected error), s1, [EvAttempt attempt (Rejected error)])
              else
                let retryAfter :=
                  match getRetryAfter with
                  | Some g => g error
                  | None => None
                  end in
                let delay := calculateDelay attempt retryConfig retryAfter in
                let '(out, s2, tr) := retry_loop fuel' (attempt + 1) lastError s1 in
                (out, s2, EvAttempt attempt (Rejected error) :: EvSleep delay :: tr)
        end
      else
        (* the loop ends: throw lastError *)
        (Some (Rejected lastError), s, [])
  end.
End WithRetry.

(** [withRetry(fn, config, getRetryAfter)].  The loop runs for
    [attempt = 1 .. maxAttempts], so [maxAttempts + 1] tests of its condition
    suffice. *)
Definition withRetry {T S : Type} (fn : S -> Settled T * S) (config : option RetryConfig)
    (getRetryAfter : option (JsValue -> option Z)) (s : S)
    : option (Settled T) * S * list (RetryEvent T) :=
  let retryConfig := merge_config config in
  retry_loop fn retryConfig getRetryAfter
    (Datatypes.S (Z.to_nat (maxAttempts retryConfig))) 1 JsUndefined s.

(** The calls of [fn] in a run, in order, and their number. *)
Fixpoint attempts {T : Type} (tr : list (RetryEvent T)) : list (Settled T) :=
  match tr with
  | [] => []
  | EvAttempt _ r :: tr' => r :: attempts tr'
  | EvSleep _ :: tr' => attempts tr'
  end.

Definition invocations {T : Type} (tr : list (RetryEvent T)) : nat :=
  length (attempts tr).

(** The sleeps of a run, in order. *)
Fixpoint sleeps {T : Type} (tr : list (RetryEvent T)) : list Z :=
  match tr with
  | [] => []
  | EvAttempt _ _ :: tr' => sleeps tr'
  | EvSleep ms :: tr' => ms :: sleeps tr'
  end.

(** [fn] fails at every call, with an error the configuration retries. *)
Definition always_fails_retryable {T S : Type} (fn : S -> Settled T * S)
    (retryConfig : RequiredRetryConfig) : Prop :=
  forall s, exists e s1,
    fn s = (Rejected e, s1) /\ isRetryable (statusCodeOf e) retryConfig = true.

(** An attempt function that plays a script.  Its state is the number of
    calls made so far; call number [i] settles as the [i]-th entry of the
    script and, past its end, as [beyond]. *)
Definition scripted {T : Type} (script : list (Settled T)) (beyond : Settled T) (calls : nat)
    : Settled T * nat :=
  (nth calls script beyond, Datatypes.S calls).

(** ** Built-ins of the JavaScript runtime

    [String(v)], [JSON.stringify(v)] ([None] when it throws) and
    [parseInt(s, 10)] ([NaN] when the string does not start with a number)
    are the runtime's; the development holds for any behaviour of them. *)
Class Runtime : Type := {
  js_String : JsValue -> string;
  JSON_stringify : JsValue -> option string;
  parseInt : string -> JsNum
}.

(** A runtime for the examples: [String] renders primitives, errors and
    arrays as JavaScript does and any other object as [[object Object]];
    [parseInt] reads the decimal digits at the start of a string and yields
    [NaN] when there is none (the headers of the examples have no sign and no
    leading white space).  The examples send no body, so that
    [JSON.stringify] is never called in them. *)
Fixpoint example_String (v : JsValue) : string :=
  match v with
  | JsUndefined => "undefined"
  | JsNull => "null"
  | JsBool b => if b then "true" else "false"
  | JsNumber n => pretty n
  | JsString s => s
  | JsArray items =>
      (fix go (items : list JsValue) : string :=
         match items with
         | [] => ""
         | [x] => match x with JsUndefined | JsNull => "" | _ => example_String x end
         | x :: rest =>
             match x with JsUndefined | JsNull => "" | _ => example_String x end
             +:+ "," +:+ go rest
         end) items
  | JsObject _ => "[object Object]"
  | JsError name message => name +:+ ": " +:+ message
  | JsStrava cls message _ _ _ _ _ _ => class_name cls +:+ ": " +:+ message
  end.

Fixpoint digits_value (acc : Z) (s : string) : Z :=
  match s with
  | EmptyString => acc
  | String c rest =>
      let n := Z.of_N (Ascii.N_of_ascii c) in
      if (48 <=? n) && (n <=? 57) then digits_value (acc * 10 + (n - 48)) rest else acc
  end.

Definition example_parseInt (s : string) : JsNum :=
  match s with
  | EmptyString => NaN
  | String c _ =>
      let n := Z.of_N (Ascii.N_of_ascii c) in
      if (48 <=? n) && (n <=? 57) then Num (digits_value 0 s) else NaN
  end.

Definition example_runtime : Runtime := {|
  js_String := example_String;
  JSON_stringify := fun _ => None;
  parseInt := example_parseInt
|}.

(** [parts.join(sep)]. *)
Fixpoint join (sep : string) (parts : list string) : string :=
  match parts with
  | [] => ""
  | [p] => p
  | p :: rest => p +:+ sep +:+ join sep rest
  end.

(** [keys.sort()]: insertion into the order of [String.leb]. *)
Fixpoint insert_sorted (k : string) (sorted : list string) : list string :=
  match sorted with
  | [] => [k]
  | k' :: rest => if String.leb k k' then k :: sorted else k' :: insert_sorted k rest
  end.

Definition sort_keys (keys : list string) : list string :=
  foldr insert_sorted [] keys.

(** ** Request deduplication ([src/http/deduplication.ts]) *)

(** A promise object is identified by its serial number: the [n]-th promise
    made since the program started.  The world of the deduplicator is the list
    of the factories that were invoked so far, oldest first; invoking a
    factory makes a new promise, whose serial number is its position in that
    list. *)
Definition Promise : Type := nat.

Record CacheEntry : Type := {
  promise : Promise;
  timestamp : Z
}.

Record RequestDeduplicator : Type := {
  cache : gmap string CacheEntry;
  cleanupInterval : option Z;
  windowMs : Z
}.

Section Deduplication.
Context `{RT : Runtime}.

(** The factories ([() => Promise<T>]) callers pass. *)
Context {F : Type}.

(** [factory()]: one more invocation, one new promise. *)
Definition invoke (factory : F) (world : list F) : Promise * list F :=
  (length world, world ++ [factory]).

(** [new RequestDeduplicator(windowMs)]; [timer] is the handle that
    [setInterval] returns in [startCleanup]. *)
Definition new_RequestDeduplicator (windowMs : option Z) (timer : Z) : RequestDeduplicator :=
  {| cache := ∅; cleanupInterval := Some timer; windowMs := default 5000 windowMs |}.

Definition generateKey (method path : string) (query : option (gmap string JsValue))
    (body : JsValue) : string :=
  let parts := [method; path] in
  let parts :=
    match query with
    | Some query =>
        let sortedQuery :=
          join "&"
            (map (fun key => key +:+ "=" +:+ js_String (default JsUndefined (query !! key)))
                 (sort_keys (map fst (map_to_list query)))) in
        parts ++ [sortedQuery]
    | None => parts
    end in
  let parts :=
    if truthy body then
      match JSON_stringify body with
      | Some bodyHash => parts ++ [bodyHash]
      | None => parts ++ [js_String body]
      end
    else parts in
  join "|" parts.

(** [now] is the value of [Date.now()] at the call. *)
Definition getOrCreate (method path : string) (query : option (gmap string JsValue))
    (body : JsValue) (factory : F) (now : Z) (this : RequestDeduplicator) (world : list F)
    : Promise * RequestDeduplicator * list F :=
  let key := generateKey method path query body in
  let fresh (_ : unit) :=
    let '(promise, world') := invoke factory world in
    (promise,
     {| cache := <[key := {| promise := promise; timestamp := now |}]> (cache this);
        cleanupInterval := cleanupInterval this;
        windowMs := windowMs this |},
     world') in
  match cache this !! key with
  | Some cached =>
      if now - timestamp cached <? windowMs this then (promise cached, this, world)
      else fresh tt
  | None => fresh tt
  end.

(** The periodic sweep, run by the timer at time [now]. *)
Definition cleanup (now : Z) (this : RequestDeduplicator) : RequestDeduplicator :=
  {| cache := filter (fun kv => ¬ (now - timestamp (snd kv) >= windowMs this)) (cache this);
     cleanupInterval := cleanupInterval this;
     windowMs := windowMs this |}.

Definition destroy (this : RequestDeduplicator) : RequestDeduplicator :=
  {| cache := ∅; cleanupInterval := None; windowMs := windowMs this |}.

(** What happens to a deduplicator over time: calls of [getOrCreate] and
    firings of the sweep timer. *)
Inductive DedupOp : Type :=
| OpGetOrCreate (method path : string) (query : option (gmap string JsValue))
                (body : JsValue) (factory : F) (now : Z)
| OpCleanup (now : Z).

Definition op_time (op : DedupOp) : Z :=
  match op with
  | OpGetOrCreate _ _ _ _ _ now => now
  | OpCleanup now => now
  end.

(** The operation is a sweep or a call with exactly these arguments. *)
Definition same_request (method path : string) (query : option (gmap string JsValue))
    (body : JsValue) (op : DedupOp) : Prop :=
  match op with
  | OpGetOrCreate m p q b _ _ => m = method ∧ p = path ∧ q = query ∧ b = body
  | OpCleanup _ => True
  end.

(** Runs the operations in order; yields the promises the calls of
    [getOrCreate] returned, in order. *)
Fixpoint run_ops (ops : list DedupOp) (this : RequestDeduplicator) (world : list F)
    : list Promise * RequestDeduplicator * list F :=
  match ops with
  | [] => ([], this, world)
  | OpGetOrCreate method path query body factory now :: ops' =>
      let '(p, this', world') := getOrCreate method path query body factory now this world in
      let '(ps, this'', world'') := run_ops ops' this' world' in
      (p :: ps, this'', world'')
  | OpCleanup now :: ops' => run_ops ops' (cleanup now this) world
  end.

(** The number of calls of [getOrCreate] among the operations. *)
Fixpoint count_calls (ops : list DedupOp) : nat :=
  match ops with
  | [] => O
  | OpGetOrCreate _ _ _ _ _ _ :: ops' => Datatypes.S (count_calls ops')
  | OpCleanup _ :: ops' => count_calls ops'
  end.

(** No entry of the key is served at [now]: there is none, or its age has
    reached the window. *)
Definition no_live_entry (key : string) (now : Z) (this : RequestDeduplicator) : Prop :=
  match cache this !! key with
  | Some cached => windowMs this <= now - timestamp cached
  | None => True
  end.
End Deduplication.

(** ** The request layer ([src/http/request.ts]) *)

(** A [Response] of the fetch API, by what the code reads of it:
    [headers_get] is [response.headers.get], [json] and [text] say how the
    promises of [response.json()] and [response.text()] settle. *)
Record Response : Type := {
  status : Z;
  statusText : string;
  headers_get : string -> option string;
  json : Settled JsValue;
  text : Settled string
}.

(** [response.ok]: the status is in the range 200-299. *)
Definition ok (response : Response) : bool :=
  (200 <=? status response) && (status response <=? 299).

Record RateLimitInfo : Type := {
  shortTermLimit : option JsNum;
  shortTermUsage : option JsNum;
  dailyLimit : option JsNum;
  dailyUsage : option JsNum
}.

Definition comma : Ascii.ascii := Ascii.ascii_of_nat 44.

(** [s.split(",")[0]]. *)
Fixpoint before_comma (s : string) : string :=
  match s with
  | EmptyString => EmptyString
  | String c rest =>
      if Ascii.eqb c comma then EmptyString else String c (before_comma rest)
  end.

(** A header value that is present and not the empty string ([if (h)]). *)
Definition present (h : option string) : option string :=
  match h with
  | Some s => if String.eqb s "" then None else Some s
  | None => None
  end.

(** [v === null]. *)
Definition is_null (v : JsValue) : bool :=
  match v with JsNull => true | _ => false end.

(** ["message" in v] and [v.message] for a value with [typeof v === "object"]
    that is not [null] (likewise ["errors"]). *)
Definition has_member (k : string) (v : JsValue) : bool :=
  match v with
  | JsObject props => bool_decide (is_Some (get_prop k props))
  | JsError _ _ | JsStrava _ _ _ _ _ _ _ _ => String.eqb k "message"
  | _ => false
  end.

Definition member (k : string) (v : JsValue) : JsValue :=
  match v with
  | JsObject props => default JsUndefined (get_prop k props)
  | JsError _ m | JsStrava _ m _ _ _ _ _ _ =>
      if String.eqb k "message" then JsString m else JsUndefined
  | _ => JsUndefined
  end.

Definition DEFAULT_TIMEOUT : Z := 30000.

Section RequestLayer.
Context `{RT : Runtime}.

Definition extractRateLimitInfo (headers : string -> option string) : RateLimitInfo :=
  let shortTermLimit := headers "X-RateLimit-Limit" in
  let shortTermUsage := headers "X-RateLimit-Usage" in
  let dailyLimit := headers "X-RateLimit-Limit-Daily" in
  let dailyUsage := headers "X-RateLimit-Usage-Daily" in
  {| shortTermLimit := parseInt <$> present shortTermLimit;
     shortTermUsage := (fun s => parseInt (before_comma s)) <$> present shortTermUsage;
     dailyLimit := parseInt <$> present dailyLimit;
     dailyUsage := (fun s => parseInt (before_comma s)) <$> present dailyUsage |}.

Definition createErrorFromResponse (response : Response) : JsValue :=
  let statusCode := status response in
  let errorData :=
    match json response with
    | Resolved data => data
    | Rejected _ =>
        match text response with
        | Resolved t => JsString t
        | Rejected _ => JsUndefined
        end
    end in
  let message :=
    if typeof_object errorData && negb (is_null errorData) && has_member "message" errorData
    then js_String (member "message" errorData)
    else "HTTP " +:+ pretty statusCode +:+ ": " +:+ statusText response in
  let rateLimitInfo := extractRateLimitInfo (headers_get response) in
  let retryAfter := headers_get response "Retry-After" in
  if (statusCode =? 401) || (statusCode =? 403) then
    StravaAuthError message (Some statusCode) errorData
  else if statusCode =? 404 then
    StravaNotFoundError message (Some statusCode) errorData
  else if statusCode =? 422 then
    let errors :=
      if typeof_object errorData && negb (is_null errorData) && has_member "errors" errorData
      then Some (member "errors" errorData)
      else None in
    StravaValidationError message (Some statusCode) errorData errors
  else if statusCode =? 429 then
    StravaRateLimitError message (Some statusCode) errorData
      (parseInt <$> present retryAfter)
      (shortTermLimit rateLimitInfo)
      (shortTermUsage rateLimitInfo)
  else if (statusCode =? 500) || (statusCode =? 502) || (statusCode =? 503)
          || (statusCode =? 504) then
    StravaServerError message (Some statusCode) errorData
  else
    StravaError message (Some statusCode) errorData.

(** The [catch] block of [makeRequest]: what is thrown on for a caught
    [error]. *)
Definition rethrow (timeout : Z) (error : JsValue) : JsValue :=
  if instanceof_StravaError error then error
  else if instanceof_Error error && String.eqb (error_name error) "AbortError" then
    StravaError ("Request timeout after " +:+ pretty timeout +:+ "ms") None error
  else
    StravaError (if instanceof_Error error then error_message error else "Unknown error")
                None error.

(** The extractor [request] hands to [withRetry]:
    [error instanceof StravaRateLimitError && error.retryAfter
     ? error.retryAfter : undefined].  A [retryAfter] that is [0] or [NaN] is
    falsy, as one that is [undefined]. *)
Definition retryAfterOf (error : JsValue) : option Z :=
  if instanceof_StravaRateLimitError error then
    match error_retryAfter error with
    | Some (Num retryAfter) => if retryAfter =? 0 then None else Some retryAfter
    | Some NaN | None => None
    end
  else None.

(** The rate limiter ([src/http/rate-limiter.ts]) by its interface, acting
    on the state [S] of the environment. *)
Record RateLimiter (S : Type) : Type := {
  waitForAvailability : S -> Settled unit * S;
  updateFromHeaders : (string -> option string) -> S -> S;
  processQueue : S -> S
}.
Arguments waitForAvailability {S} _ _.
Arguments updateFromHeaders {S} _ _ _.
Arguments processQueue {S} _ _.

Section MakeRequest.
Context {S : Type}.

(** [fetch(url, { method, headers, body, signal })] under the timeout: how
    the call settles in the current state of the network.  The request sent
    (URL, method, headers, body) is the same at every attempt of one call of
    [request] and is left implicit. *)
Variable fetch : S -> Settled Response * S.
(** [applyTransformations(rawData, ...)] of [src/utils/transformers.ts],
    with the four flags of the options applied. *)
Variable applyTransformations : JsValue -> JsValue.
Variable timeout : Z.
Variable rateLimiter : option (RateLimiter S).

(** [if (rateLimiter) { await rateLimiter.waitForAvailability(); }]. *)
Definition admission (s : S) : Settled unit * S :=
  match rateLimiter with
  | Some rl => waitForAvailability rl s
  | None => (Resolved tt, s)
  end.

(** One physical attempt. *)
Definition makeRequest (s : S) : Settled JsValue * S :=
  let '(admitted, s1) := admission s in
  match admitted with
  | Rejected e => (Rejected e, s1)
  | Resolved _ =>
      let '(fetched, s2) := fetch s1 in
      (* try *)
      let '(tried, s3) :=
        match fetched with
        | Rejected e => (Rejected e, s2)
        | Resolved response =>
            let s3 :=
              match rateLimiter with
              | Some rl => processQueue rl (updateFromHeaders rl (headers_get response) s2)
              | None => s2
              end in
            if negb (ok response) then (Rejected (createErrorFromResponse response), s3)
            else
              match json response with
              | Rejected e => (Rejected e, s3)
              | Resolved rawData => (Resolved (applyTransformations rawData), s3)
              end
        end in
      (* catch *)
      match tried with
      | Resolved transformedData => (Resolved transformedData, s3)
      | Rejected error => (Rejected (rethrow timeout error), s3)
      end
  end.

(** [request] without a deduplicator: the retry-wrapped attempt. *)
Definition request (retryConfig : option RetryConfig) (s : S)
    : option (Settled JsValue) * S * list (RetryEvent JsValue) :=
  withRetry makeRequest retryConfig (Some retryAfterOf) s.
End MakeRequest.
End RequestLayer.

(** ** Token storage ([src/auth/token-store.ts]) *)

Record TokenData : Type := {
  accessToken : string;
  refreshToken : string;
  expiresAt : Z;
  tokenType : string;
  scope : option string;
  athleteId : option Z
}.

(** The [TokenStore] interface, over the state [St] of the backing medium.
    Each method returns a promise, which may reject. *)
Class TokenStore (St : Type) : Type := {
  store_get : St -> Settled (option TokenData) * St;
  store_set : TokenData -> St -> Settled unit * St;
  store_clear : St -> Settled unit * St
}.

(** [MemoryTokenStore]: the state is the [token] field. *)
#[export] Instance MemoryTokenStore : TokenStore (option TokenData) := {
  store_get := fun token => (Resolved token, token);
  store_set := fun token _ => (Resolved tt, Some token);
  store_clear := fun _ => (Resolved tt, None)
}.

(** ** OAuth token management ([src/auth/oauth.ts]) *)

(** The body of a successful token response, read through the cast
    [as TokenResponse]; [athlete_id] is [data.athlete?.id]. *)
Record TokenResponse : Type := {
  token_type : string;
  expires_at : Z;
  expires_in : Z;
  refresh_token : string;
  access_token : string;
  athlete_id : option Z
}.

(** The response of the token endpoint: [token_json] is how
    [response.json()] settles when the body is read as unknown JSON (the
    error path), [token_data] how it settles when read as a [TokenResponse]. *)
Record TokenHttpResponse : Type := {
  token_status : Z;
  token_statusText : string;
  token_json : Settled JsValue;
  token_data : Settled TokenResponse
}.

Definition token_ok (response : TokenHttpResponse) : bool :=
  (200 <=? token_status response) && (token_status response <=? 299).

(** What the token manager does, in order. *)
Inductive AuthEvent : Type :=
| EvStoreGet
| EvStoreSet (token : TokenData)
| EvStoreClear
| EvRefreshExchange (refreshToken clientId clientSecret : string).

Record OAuthManager : Type := {
  clientId : string;
  clientSecret : string
}.

Section OAuth.
Context `{RT : Runtime}.

(** The token endpoint: how [fetch(`${OAUTH_BASE_URL}/token`, ...)] settles
    for the form parameters sent. *)
Variable post_token : list (string * string) -> Settled TokenHttpResponse.

Definition refreshAccessToken (refreshToken clientId clientSecret : string)
    : Settled TokenData :=
  let params :=
    [("client_id", clientId); ("client_secret", clientSecret);
     ("refresh_token", refreshToken); ("grant_type", "refresh_token")] in
  match post_token params with
  | Rejected e => Rejected e
  | Resolved response =>
      if negb (token_ok response) then
        let error :=
          match token_json response with
          | Resolved data => data
          | Rejected _ => JsObject [("message", JsString (token_statusText response))]
          end in
        match error with
        | JsNull | JsUndefined =>
            (* reading [error.message] throws a TypeError, with the message
               of the engine *)
            Rejected (JsError "TypeError" "Cannot read properties of null (reading 'message')")
        | _ =>
            let detail :=
              if truthy (member "message" error) then js_String (member "message" error)
              else token_statusText response in
            Rejected (StravaAuthError ("Failed to refresh token: " +:+ detail)
                                      (Some (token_status response)) error)
        end
      else
        match token_data response with
        | Rejected e => Rejected e
        | Resolved data =>
            Resolved {| accessToken := access_token data;
                        refreshToken := refresh_token data;
                        expiresAt := expires_at data;
                        tokenType := token_type data;
                        scope := None;
                        athleteId := athlete_id data |}
        end
  end.

(** [now_ms] is the value of [Date.now()]. *)
Definition isTokenExpired (token : TokenData) (bufferSeconds : Z) (now_ms : Z) : bool :=
  let now := now_ms / 1000 in
  expiresAt token <=? now + bufferSeconds.

Section Manager.
Context {St : Type} `{TS : TokenStore St}.
Variable this : OAuthManager.

(** [OAuthManager.getToken()]; [isTokenExpired(token)] takes the default
    buffer of 300 seconds. *)
Definition getToken (now_ms : Z) (st : St)
    : Settled (option TokenData) * St * list AuthEvent :=
  match store_get st with
  | (Rejected e, st1) => (Rejected e, st1, [EvStoreGet])
  | (Resolved None, st1) => (Resolved None, st1, [EvStoreGet])
  | (Resolved (Some token), st1) =>
      if isTokenExpired token 300 now_ms then
        let exchange :=
          EvRefreshExchange (refreshToken token) (clientId this) (clientSecret this) in
        (* try *)
        let '(tried, st2, tr) :=
          match refreshAccessToken (refreshToken token) (clientId this) (clientSecret this) with
          | Rejected e => (Rejected e, st1, [exchange])
          | Resolved newToken =>
              let refreshedToken :=
                {| accessToken := accessToken newToken;
                   refreshToken := refreshToken newToken;
                   expiresAt := expiresAt newToken;
                   tokenType := tokenType newToken;
                   scope := scope token;
                   athleteId := or_else (athleteId token) (athleteId newToken) |} in
              match store_set refreshedToken st1 with
              | (Rejected e, st2) => (Rejected e, st2, [exchange; EvStoreSet refreshedToken])
              | (Resolved _, st2) =>
                  (Resolved (Some refreshedToken), st2, [exchange; EvStoreSet refreshedToken])
              end
          end in
        (* catch *)
        match tried with
        | Resolved r => (Resolved r, st2, EvStoreGet :: tr)
        | Rejected error =>
            match store_clear st2 with
            | (Rejected e, st3) => (Rejected e, st3, EvStoreGet :: tr ++ [EvStoreClear])
            | (Resolved _, st3) => (Rejected error, st3, EvStoreGet :: tr ++ [EvStoreClear])
            end
        end
      else (Resolved (Some token), st1, [EvStoreGet])
  end.
End Manager.
End OAuth.

(** ** Schedules of the retry loop *)

(** The sleeps [withRetry] makes after the failures [errors] of the attempts
    [attempt], [attempt + 1], ... *)
Fixpoint backoff_schedule (retryConfig : RequiredRetryConfig)
    (getRetryAfter : option (JsValue -> option Z)) (attempt : Z) (errors : list JsValue)
    : list Z :=
  match errors with
  | [] => []
  | error :: errors' =>
      calculateDelay attempt retryConfig
        (match getRetryAfter with Some g => g error | None => None end)
      :: backoff_schedule retryConfig getRetryAfter (attempt + 1) errors'
  end.

(** The first [n] calls of [fn] from the state [s], each made in the state
    the call before it left: how they settle, and the state after the
    last. *)
Fixpoint play {T S : Type} (fn : S -> Settled T * S) (n : nat) (s : S)
    : list (Settled T) * S :=
  match n with
  | O => ([], s)
  | Datatypes.S n' =>
      let '(r, s1) := fn s in
      let '(rs, s2) := play fn n' s1 in
      (r :: rs, s2)
  end.

(** The errors of the calls that failed. *)
Fixpoint failures {T : Type} (outcomes : list (Settled T)) : list JsValue :=
  match outcomes with
  | [] => []
  | Resolved _ :: later => failures later
  | Rejected e :: later => e :: failures later
  end.

(** The run in which the attempts [first], [first + 1], ... settle as
    [outcomes] and the sleeps [delays] lie between them: an attempt, a
    sleep, an attempt, and so on, an attempt last. *)
Fixpoint weave {T : Type} (first : Z) (outcomes : list (Settled T)) (delays : list Z)
    : list (RetryEvent T) :=
  match outcomes with
  | [] => []
  | r :: later =>
      EvAttempt first r ::
      match later, delays with
      | [], _ => []
      | _ :: _, [] => weave (first + 1) later []
      | _ :: _, ms :: delays' => EvSleep ms :: weave (first + 1) later delays'
      end
  end.

(** ** Runs of the deduplicator *)

Section DeduplicationRuns.
Context {F : Type}.

(** The clock does not go back: every operation happens at or after the
    one before it, the first at or after [t]. *)
Fixpoint times_from (t : Z) (ops : list (@DedupOp F)) : Prop :=
  match ops with
  | [] => True
  | op :: ops' => t <= op_time op /\ times_from (op_time op) ops'
  end.

(** The operations without the firings of the sweep timer. *)
Fixpoint calls_only (ops : list (@DedupOp F)) : list (@DedupOp F) :=
  match ops with
  | [] => []
  | OpCleanup _ :: ops' => calls_only ops'
  | op :: ops' => op :: calls_only ops'
  end.

(** Every promise in the cache was made by one of the factory invocations
    of the world. *)
Definition cache_in_world (this : RequestDeduplicator) (world : list F) : Prop :=
  forall key cached, cache this !! key = Some cached -> (promise cached < length world)%nat.

(** The two deduplicators have the same window and the same entries among
    those that are younger than the window at time [t]. *)
Definition same_live_entries (t : Z) (this this' : RequestDeduplicator) : Prop :=
  windowMs this = windowMs this' /\
  forall key cached,
    t - timestamp cached < windowMs this ->
    (cache this !! key = Some cached <-> cache this' !! key = Some cached).
End DeduplicationRuns.

(** ** The rate limiter ([src/http/rate-limiter.ts]) *)

Inductive RateLimitStrategy : Type :=
| StrategyQueue
| StrategyThrow
| StrategyWait.

(** The two windows [recordRequest] tells apart. *)
Inductive WindowType : Type :=
| ShortTerm
| Daily.

(** A caller suspended in the queue: [caller] stands for the [resolve] and
    [reject] of the promise it awaits. *)
Record QueuedRequest (C : Type) : Type := {
  caller : C;
  queued_at : Z
}.
Arguments caller {C} _.
Arguments queued_at {C} _.

(** The fields of a [RateLimiter]. *)
Record LimiterState (C : Type) : Type := {
  rl_shortTermLimit : JsNum;
  rl_shortTermWindow : Z;
  rl_dailyLimit : JsNum;
  rl_dailyWindow : Z;
  rl_shortTermRequests : list Z;
  rl_dailyRequests : list Z;
  rl_queue : list (QueuedRequest C);
  rl_strategy : RateLimitStrategy
}.
Arguments rl_shortTermLimit {C} _.
Arguments rl_shortTermWindow {C} _.
Arguments rl_dailyLimit {C} _.
Arguments rl_dailyWindow {C} _.
Arguments rl_shortTermRequests {C} _.
Arguments rl_dailyRequests {C} _.
Arguments rl_queue {C} _.
Arguments rl_strategy {C} _.

(** How a call of [waitForAvailability] goes on: it returns at once, throws,
    returns after some polls of the [wait] strategy (or is still polling when
    the fuel of the model is used up), or hands out a promise that is pending
    in the queue. *)
Inductive Admission : Type :=
| AdmittedNow
| Refused (e : JsValue)
| AdmittedAfter (polls : nat)
| StillPolling
| Enqueued.

(** [while (requests.length > 0 && requests[0] < cutoff) requests.shift()]. *)
Fixpoint shift_expired (cutoff : Z) (requests : list Z) : list Z :=
  match requests with
  | [] => []
  | t :: rest => if t <? cutoff then shift_expired cutoff rest else requests
  end.

(** [requests.filter((t) => t >= cutoff)]. *)
Fixpoint keep_recent (cutoff : Z) (requests : list Z) : list Z :=
  match requests with
  | [] => []
  | t :: rest => if t >=? cutoff then t :: keep_recent cutoff rest else keep_recent cutoff rest
  end.

Module Limiter.
Section Limiter.
Context `{RT : Runtime} {C : Type}.

(** [new RateLimiter(strategy)]. *)
Definition new (strategy : option RateLimitStrategy) : LimiterState C := {|
  rl_shortTermLimit := Num 600;
  rl_shortTermWindow := 15 * 60 * 1000;
  rl_dailyLimit := Num 30000;
  rl_dailyWindow := 24 * 60 * 60 * 1000;
  rl_shortTermRequests := [];
  rl_dailyRequests := [];
  rl_queue := [];
  rl_strategy := default StrategyQueue strategy
|}.

(** [now] is the value of [Date.now()]; the usage the server reports is not
    looked at. *)
Definition recordRequest (type : WindowType) (_currentUsage : JsNum) (now : Z)
    (this : LimiterState C) : LimiterState C :=
  match type with
  | ShortTerm =>
      let cutoff := now - rl_shortTermWindow this in
      {| rl_shortTermLimit := rl_shortTermLimit this;
         rl_shortTermWindow := rl_shortTermWindow this;
         rl_dailyLimit := rl_dailyLimit this;
         rl_dailyWindow := rl_dailyWindow this;
         rl_shortTermRequests := shift_expired cutoff (rl_shortTermRequests this) ++ [now];
         rl_dailyRequests := rl_dailyRequests this;
         rl_queue := rl_queue this;
         rl_strategy := rl_strategy this |}
  | Daily =>
      let cutoff := now - rl_dailyWindow this in
      {| rl_shortTermLimit := rl_shortTermLimit this;
         rl_shortTermWindow := rl_shortTermWindow this;
         rl_dailyLimit := rl_dailyLimit this;
         rl_dailyWindow := rl_dailyWindow this;
         rl_shortTermRequests := rl_shortTermRequests this;
         rl_dailyRequests := shift_expired cutoff (rl_dailyRequests this) ++ [now];
         rl_queue := rl_queue this;
         rl_strategy := rl_strategy this |}
  end.

Definition set_shortTermLimit (limit : JsNum) (this : LimiterState C) : LimiterState C :=
  {| rl_shortTermLimit := limit;
     rl_shortTermWindow := rl_shortTermWindow this;
     rl_dailyLimit := rl_dailyLimit this;
     rl_dailyWindow := rl_dailyWindow this;
     rl_shortTermRequests := rl_shortTermRequests this;
     rl_dailyRequests := rl_dailyRequests this;
     rl_queue := rl_queue this;
     rl_strategy := rl_strategy this |}.

Definition set_dailyLimit (limit : JsNum) (this : LimiterState C) : LimiterState C :=
  {| rl_shortTermLimit := rl_shortTermLimit this;
     rl_shortTermWindow := rl_shortTermWindow this;
     rl_dailyLimit := limit;
     rl_dailyWindow := rl_dailyWindow this;
     rl_shortTermRequests := rl_shortTermRequests this;
     rl_dailyRequests := rl_dailyRequests this;
     rl_queue := rl_queue this;
     rl_strategy := rl_strategy this |}.

Definition set_queue (queue : list (QueuedRequest C)) (this : LimiterState C)
    : LimiterState C :=
  {| rl_shortTermLimit := rl_shortTermLimit this;
     rl_shortTermWindow := rl_shortTermWindow this;
     rl_dailyLimit := rl_dailyLimit this;
     rl_dailyWindow := rl_dailyWindow this;
     rl_shortTermRequests := rl_shortTermRequests this;
     rl_dailyRequests := rl_dailyRequests this;
     rl_queue := queue;
     rl_strategy := rl_strategy this |}.

(** [updateFromHeaders(headers)]; [now1] and [now2] are the values of
    [Date.now()] when the short-term and the daily usage are recorded. *)
Definition updateFromHeaders (headers : string -> option string) (now1 now2 : Z)
    (this : LimiterState C) : LimiterState C :=
  let shortTermLimit := headers "X-RateLimit-Limit" in
  let shortTermUsage := headers "X-RateLimit-Usage" in
  let dailyLimit := headers "X-RateLimit-Limit-Daily" in
  let dailyUsage := headers "X-RateLimit-Usage-Daily" in
  let this :=
    match present shortTermLimit with
    | Some limit => set_shortTermLimit (parseInt limit) this
    | None => this
    end in
  let this :=
    match present shortTermUsage with
    | Some usage =>
        let current := parseInt (before_comma usage) in
        recordRequest ShortTerm current now1 this
    | None => this
    end in
  let this :=
    match present dailyLimit with
    | Some limit => set_dailyLimit (parseInt limit) this
    | None => this
    end in
  match present dailyUsage with
  | Some usage =>
      let current := parseInt (before_comma usage) in
      recordRequest Daily current now2 this
  | None => this
  end.

Definition getRateLimitInfo (now : Z) (this : LimiterState C)
    : RateLimitInfo * LimiterState C :=
  let shortTermCutoff := now - rl_shortTermWindow this in
  let shortTermRequests := keep_recent shortTermCutoff (rl_shortTermRequests this) in
  let dailyCutoff := now - rl_dailyWindow this in
  let dailyRequests := keep_recent dailyCutoff (rl_dailyRequests this) in
  (Build_RateLimitInfo
     (Some (rl_shortTermLimit this))
     (Some (Num (Z.of_nat (length shortTermRequests))))
     (Some (rl_dailyLimit this))
     (Some (Num (Z.of_nat (length dailyRequests)))),
   {| rl_shortTermLimit := rl_shortTermLimit this;
      rl_shortTermWindow := rl_shortTermWindow this;
      rl_dailyLimit := rl_dailyLimit this;
      rl_dailyWindow := rl_dailyWindow this;
      rl_shortTermRequests := shortTermRequests;
      rl_dailyRequests := dailyRequests;
      rl_queue := rl_queue this;
      rl_strategy := rl_strategy this |}).

Definition canMakeRequest (now : Z) (this : LimiterState C) : bool * LimiterState C :=
  let '(info, this) := getRateLimitInfo now this in
  (num_lt (default (Num 0) (shortTermUsage info)) (default (Num 600) (shortTermLimit info))
   && num_lt (default (Num 0) (dailyUsage info)) (default (Num 30000) (dailyLimit info)),
   this).

(** The polling loop of the [wait] strategy, entered at its condition;
    [clock k] is the value of [Date.now()] at the check after [k] sleeps of
    one second. *)
Fixpoint poll (fuel : nat) (clock : nat -> Z) (polls : nat) (this : LimiterState C)
    : Admission * LimiterState C :=
  match fuel with
  | O => (StillPolling, this)
  | Datatypes.S fuel' =>
      let '(can, this) := canMakeRequest (clock polls) this in
      if can then (AdmittedAfter polls, this)
      else poll fuel' clock (Datatypes.S polls) this
  end.

(** [waitForAvailability()] for the caller [who]: [now] is the value of
    [Date.now()] at the first check, [later] its value at the second reading
    of the [throw] and [queue] strategies, [clock] its values at the checks of
    the [wait] strategy. *)
Definition waitForAvailability (who : C) (now later : Z) (clock : nat -> Z) (fuel : nat)
    (this : LimiterState C) : Admission * LimiterState C :=
  let '(can, this) := canMakeRequest now this in
  if can then (AdmittedNow, this)
  else
    match rl_strategy this with
    | StrategyThrow =>
        let '(info, this) := getRateLimitInfo later this in
        (Refused
           (JsError "Error"
              ("Rate limit exceeded. Short-term: "
               +:+ template_number (shortTermUsage info) +:+ "/"
               +:+ template_number (shortTermLimit info) +:+ ", "
               +:+ "Daily: " +:+ template_number (dailyUsage info) +:+ "/"
               +:+ template_number (dailyLimit info))),
         this)
    | StrategyWait => poll fuel clock 0 this
    | StrategyQueue =>
        (Enqueued, set_queue (rl_queue this ++ [{| caller := who; queued_at := later |}]) this)
    end.

(** The loop of [processQueue], entered at its condition with the callers
    still [pending]; [clock k] is the value of [Date.now()] at the check
    after [k] callers were released.  Yields the callers whose promise was
    resolved, in order. *)
Fixpoint drain (pending : list (QueuedRequest C)) (clock : nat -> Z) (released : nat)
    (this : LimiterState C) : list C * LimiterState C :=
  match pending with
  | [] => ([], set_queue [] this)
  | request :: rest =>
      let '(can, this) := canMakeRequest (clock released) this in
      if can then
        let '(callers, this) := drain rest clock (Datatypes.S released) this in
        (caller request :: callers, this)
      else ([], set_queue pending this)
  end.

Definition processQueue (clock : nat -> Z) (this : LimiterState C)
    : list C * LimiterState C :=
  drain (rl_queue this) clock 0 this.

Definition setStrategy (strategy : RateLimitStrategy) (this : LimiterState C)
    : LimiterState C :=
  {| rl_shortTermLimit := rl_shortTermLimit this;
     rl_shortTermWindow := rl_shortTermWindow this;
     rl_dailyLimit := rl_dailyLimit this;
     rl_dailyWindow := rl_dailyWindow this;
     rl_shortTermRequests := rl_shortTermRequests this;
     rl_dailyRequests := rl_dailyRequests this;
     rl_queue := rl_queue this;
     rl_strategy := strategy |}.

(** What happens to a rate limiter over time: a response is fed to
    [updateFromHeaders], or the usage is read (by [getRateLimitInfo], or by
    [canMakeRequest] on behalf of [waitForAvailability] or [processQueue]). *)
Inductive LimiterOp : Type :=
| OpResponse (headers : string -> option string) (now1 now2 : Z)
| OpRead (now : Z).

Definition run_op (op : LimiterOp) (this : LimiterState C) : LimiterState C :=
  match op with
  | OpResponse headers now1 now2 => updateFromHeaders headers now1 now2 this
  | OpRead now => (getRateLimitInfo now this).2
  end.

Definition run (ops : list LimiterOp) (this : LimiterState C) : LimiterState C :=
  foldl (fun this op => run_op op this) this ops.

(** The times at which the operations recorded a request in the window. *)
Fixpoint recorded (type : WindowType) (ops : list LimiterOp) : list Z :=
  match ops with
  | [] => []
  | OpResponse headers now1 now2 :: ops' =>
      match type with
      | ShortTerm =>
          match present (headers "X-RateLimit-Usage") with
          | Some _ => now1 :: recorded type ops'
          | None => recorded type ops'
          end
      | Daily =>
          match present (headers "X-RateLimit-Usage-Daily") with
          | Some _ => now2 :: recorded type ops'
          | None => recorded type ops'
          end
      end
  | OpRead _ :: ops' => recorded type ops'
  end.

(** The first and the last reading of the clock in an operation. *)
Definition op_start (op : LimiterOp) : Z :=
  match op with OpResponse _ now1 _ => now1 | OpRead now => now end.

Definition op_end (op : LimiterOp) : Z :=
  match op with OpResponse _ _ now2 => now2 | OpRead now => now end.

(** The clock does not go back: every reading is at or after the one
    before it, the first at or after [t]. *)
Fixpoint clock_from (t : Z) (ops : list LimiterOp) : Prop :=
  match ops with
  | [] => True
  | op :: ops' => t <= op_start op /\ op_start op <= op_end op /\ clock_from (op_end op) ops'
  end.

(** The request times of a window and its length. *)
Definition requests_of (type : WindowType) (this : LimiterState C) : list Z :=
  match type with
  | ShortTerm => rl_shortTermRequests this
  | Daily => rl_dailyRequests this
  end.

Definition window_of (type : WindowType) (this : LimiterState C) : Z :=
  match type with
  | ShortTerm => rl_shortTermWindow this
  | Daily => rl_dailyWindow this
  end.

(** The usage [getRateLimitInfo] reports for a window. *)
Definition usage_of (type : WindowType) (info : RateLimitInfo) : option JsNum :=
  match type with
  | ShortTerm => shortTermUsage info
  | Daily => dailyUsage info
  end.
End Limiter.
End Limiter.


(** ** OAuth scopes ([src/auth/scopes.ts]) *)

Inductive StravaScope : Type :=
| Read
| ReadAll
| ProfileReadAll
| ProfileWrite
| ActivityRead
| ActivityReadAll
| ActivityWrite.

(** The value of a member of the enum: at run time a scope is this
    string. *)
Definition scope_value (scope : StravaScope) : string :=
  match scope with
  | Read => "read"
  | ReadAll => "read_all"
  | ProfileReadAll => "profile:read_all"
  | ProfileWrite => "profile:write"
  | ActivityRead => "activity:read"
  | ActivityReadAll => "activity:read_all"
  | ActivityWrite => "activity:write"
  end.

(** [Object.values(StravaScope)]. *)
Definition StravaScope_values : list string :=
  map scope_value
    [Read; ReadAll; ProfileReadAll; ProfileWrite; ActivityRead; ActivityReadAll; ActivityWrite].

(** [s.split(",")]. *)
Fixpoint split_comma (s : string) : list string :=
  match s with
  | EmptyString => [EmptyString]
  | String c rest =>
      if Ascii.eqb c comma then EmptyString :: split_comma rest
      else
        match split_comma rest with
        | part :: parts => String c part :: parts
        | [] => [String c EmptyString]
        end
  end.

(** The white space and the line terminators that [trim] strips, among the
    characters below 128: tab, line feed, vertical tab, form feed, carriage
    return and space. *)
Definition is_white_space (c : Ascii.ascii) : bool :=
  let n := Ascii.N_of_ascii c in
  ((9 <=? n) && (n <=? 13) || (n =? 32))%N.

Fixpoint trim_start (s : string) : string :=
  match s with
  | EmptyString => EmptyString
  | String c rest => if is_white_space c then trim_start rest else s
  end.

Fixpoint trim_end (s : string) : string :=
  match s with
  | EmptyString => EmptyString
  | String c rest =>
      match trim_end rest with
      | EmptyString => if is_white_space c then EmptyString else String c EmptyString
      | kept => String c kept
      end
  end.

(** [s.trim()]. *)
Definition trim (s : string) : string := trim_end (trim_start s).

(** [scopeString.split(",").map((s) => s.trim()).filter(Boolean)]: the cast
    to [StravaScope] checks nothing, the result is a list of strings. *)
Definition parseScopes (scopeString : string) : list string :=
  List.filter (fun s => negb (String.eqb s EmptyString)) (map trim (split_comma scopeString)).

Definition formatScopes (scopes : list string) : string := join "," scopes.

Definition hasScope (required : string) (available : list string) : bool :=
  existsb (String.eqb required) available.

Definition hasAllScopes (required available : list string) : bool :=
  forallb (fun scope => existsb (String.eqb scope) available) required.

Definition validateScopes (scopes : list string) : bool :=
  let validScopes := StravaScope_values in
  forallb (fun scope => existsb (String.eqb scope) validScopes) scopes.

(** [s.includes(",")]. *)
Fixpoint has_comma (s : string) : bool :=
  match s with
  | EmptyString => false
  | String c rest => Ascii.eqb c comma || has_comma rest
  end.

(** A string that reads as one scope: not empty, without comma, without
    white space at either end. *)
Definition one_scope (s : string) : Prop :=
  s <> EmptyString /\ has_comma s = false /\ trim s = s.

(** ** The other flows of the token manager ([src/auth/oauth.ts]) *)

Section OAuthFlows.
Context `{RT : Runtime}.
Variable post_token : list (string * string) -> Settled TokenHttpResponse.

Definition exchangeCode (code clientId clientSecret : string) (redirectUri : option string)
    : Settled TokenData :=
  let params :=
    [("client_id", clientId); ("client_secret", clientSecret);
     ("code", code); ("grant_type", "authorization_code")] in
  let params :=
    match redirectUri with
    | Some uri => if String.eqb uri EmptyString then params else params ++ [("redirect_uri", uri)]
    | None => params
    end in
  match post_token params with
  | Rejected e => Rejected e
  | Resolved response =>
      if negb (token_ok response) then
        let error :=
          match token_json response with
          | Resolved data => data
          | Rejected _ => JsObject [("message", JsString (token_statusText response))]
          end in
        match error with
        | JsNull | JsUndefined =>
            Rejected (JsError "TypeError" "Cannot read properties of null (reading 'message')")
        | _ =>
            let detail :=
              if truthy (member "message" error) then js_String (member "message" error)
              else token_statusText response in
            Rejected (StravaAuthError ("Failed to exchange code: " +:+ detail)
                                      (Some (token_status response)) error)
        end
      else
        match token_data response with
        | Rejected e => Rejected e
        | Resolved data =>
            Resolved {| accessToken := access_token data;
                        refreshToken := refresh_token data;
                        expiresAt := expires_at data;
                        tokenType := token_type data;
                        scope := None;
                        athleteId := athlete_id data |}
        end
  end.
End OAuthFlows.

(** The methods of [OAuthManager] beside [getToken]. *)
Module Manager.
Section Manager.
Context `{RT : Runtime}.
Variable post_token : list (string * string) -> Settled TokenHttpResponse.
Context {St : Type} `{TS : TokenStore St}.
Variable this : OAuthManager.

(** [authenticate(code, redirectUri)]. *)
Definition authenticate (code : string) (redirectUri : option string) (st : St)
    : Settled TokenData * St :=
  match exchangeCode post_token code (clientId this) (clientSecret this) redirectUri with
  | Rejected e => (Rejected e, st)
  | Resolved token =>
      match store_set token st with
      | (Rejected e, st1) => (Rejected e, st1)
      | (Resolved _, st1) => (Resolved token, st1)
      end
  end.

(** [getScopes()]. *)
Definition getScopes (st : St) : Settled (list string) * St :=
  match store_get st with
  | (Rejected e, st1) => (Rejected e, st1)
  | (Resolved None, st1) => (Resolved [], st1)
  | (Resolved (Some token), st1) =>
      match scope token with
      | None => (Resolved [], st1)
      | Some granted =>
          if String.eqb granted EmptyString then (Resolved [], st1)
          else (Resolved (parseScopes granted), st1)
      end
  end.

(** [clearTokens()]. *)
Definition clearTokens (st : St) : Settled unit * St := store_clear st.

(** [refreshToken()], the refresh on demand. *)
Definition refreshToken (st : St) : Settled TokenData * St :=
  match store_get st with
  | (Rejected e, st1) => (Rejected e, st1)
  | (Resolved None, st1) =>
      (Rejected (StravaAuthError "No token available to refresh" None JsUndefined), st1)
  | (Resolved (Some token), st1) =>
      match refreshAccessToken post_token (refreshToken token)
              (clientId this) (clientSecret this) with
      | Rejected e => (Rejected e, st1)
      | Resolved newToken =>
          let refreshedToken :=
            {| accessToken := accessToken newToken;
               refreshToken := refreshToken newToken;
               expiresAt := expiresAt newToken;
               tokenType := tokenType newToken;
               scope := scope token;
               athleteId := or_else (athleteId token) (athleteId newToken) |} in
          match store_set refreshedToken st1 with
          | (Rejected e, st2) => (Rejected e, st2)
          | (Resolved _, st2) => (Resolved refreshedToken, st2)
          end
      end
  end.
End Manager.
End Manager.

(** ** Pagination ([src/utils/pagination.ts]) *)

(** The fields of a [PaginatedIterator]. *)
Record PaginatedIterator (T : Type) : Type := {
  currentPage : Z;
  currentItems : list T;
  hasMore : bool;
  perPage : Z
}.
Arguments currentPage {T} _.
Arguments currentItems {T} _.
Arguments hasMore {T} _.
Arguments perPage {T} _.

(** How a consumer that takes every item sees an async generator end: it
    returns, throws, or is still running when the fuel of the model is used
    up. *)
Inductive Ending : Type :=
| Returned
| Threw (e : JsValue)
| Running.

Module Pagination.
Section Pagination.
Context {T S : Type}.

(** [fetchPage(page, perPage)], acting on the state [S] of the server. *)
Variable fetchPage : Z -> Z -> S -> Settled (list T) * S.

(** [new PaginatedIterator(fetchPage, perPage)]. *)
Definition new (perPage : option Z) : PaginatedIterator T := {|
  currentPage := 1;
  currentItems := [];
  hasMore := true;
  perPage := default 30 perPage
|}.

(** [next()]. *)
Definition next (this : PaginatedIterator T) (s : S)
    : Settled bool * PaginatedIterator T * S :=
  if negb (hasMore this) then (Resolved false, this, s)
  else
    match fetchPage (currentPage this) (perPage this) s with
    | (Rejected e, s1) => (Rejected e, this, s1)
    | (Resolved items, s1) =>
        (Resolved (0 <? Z.of_nat (length items)),
         {| currentPage := currentPage this + 1;
            currentItems := items;
            hasMore := if Z.of_nat (length items) <? perPage this then false else hasMore this;
            perPage := perPage this |},
         s1)
    end.

(** [get current()]. *)
Definition current (this : PaginatedIterator T) : list T := currentItems this.

(** [get hasMorePages()]. *)
Definition hasMorePages (this : PaginatedIterator T) : bool := hasMore this.

(** [reset()]. *)
Definition reset (this : PaginatedIterator T) : PaginatedIterator T := {|
  currentPage := 1;
  currentItems := [];
  hasMore := true;
  perPage := perPage this
|}.

(** What a generator or a loop over an iterator did: the items handed out in
    order, how it ended, and how often [fetchPage] was called. *)
Record Run : Type := {
  items_of : list T;
  ending : Ending;
  fetches : nat
}.

(** The loop of [listAll], entered at its condition with [hasMore] true. *)
Fixpoint listAll_loop (fuel : nat) (perPage : Z) (page : Z) (s : S) : Run * S :=
  match fuel with
  | O => ({| items_of := []; ending := Running; fetches := 0 |}, s)
  | Datatypes.S fuel' =>
      match fetchPage page perPage s with
      | (Rejected e, s1) => ({| items_of := []; ending := Threw e; fetches := 1 |}, s1)
      | (Resolved items, s1) =>
          if Z.of_nat (length items) <? perPage
          then ({| items_of := items; ending := Returned; fetches := 1 |}, s1)
          else
            let '(run, s2) := listAll_loop fuel' perPage (page + 1) s1 in
            ({| items_of := items ++ items_of run;
                ending := ending run;
                fetches := Datatypes.S (fetches run) |}, s2)
      end
  end.

(** [listAll(fetchPage, perPage)], taken to its end by
    [for await (const item of ...)]. *)
Definition listAll (fuel : nat) (perPage : option Z) (s : S) : Run * S :=
  listAll_loop fuel (default 30 perPage) 1 s.

(** A consumer of the iterator:
    [while (await iterator.next()) items.push(...iterator.current)];
    [next] calls [fetchPage] when [hasMore] is set. *)
Fixpoint iterate (fuel : nat) (this : PaginatedIterator T) (s : S)
    : Run * PaginatedIterator T * S :=
  match fuel with
  | O => ({| items_of := []; ending := Running; fetches := 0 |}, this, s)
  | Datatypes.S fuel' =>
      let fetched := if hasMore this then 1%nat else 0%nat in
      match next this s with
      | (Rejected e, this1, s1) =>
          ({| items_of := []; ending := Threw e; fetches := fetched |}, this1, s1)
      | (Resolved false, this1, s1) =>
          ({| items_of := []; ending := Returned; fetches := fetched |}, this1, s1)
      | (Resolved true, this1, s1) =>
          let '(run, this2, s2) := iterate fuel' this1 s1 in
          ({| items_of := current this1 ++ items_of run;
              ending := ending run;
              fetches := (fetched + fetches run)%nat |},
           this2, s2)
      end
  end.

(** The page [page] of [data] in pages of [perPage] items. *)
Definition page_of (data : list T) (perPage : Z) (page : Z) : list T :=
  take (Z.to_nat perPage) (drop (Z.to_nat ((page - 1) * perPage)) data).
End Pagination.
End Pagination.
(** ** Sample data for the examples *)

Definition unavailable : JsValue :=
  StravaServerError "Service Unavailable" (Some 503) JsNull.

Definition not_found : JsValue :=
  StravaNotFoundError "Record Not Found" (Some 404) JsNull.

(** An attempt function that fails with [e] at every call and counts its
    calls. *)
Definition failing (e : JsValue) (calls : nat) : Settled JsValue * nat :=
  (Rejected e, Datatypes.S calls).

(** An attempt function that fails with a 503 at every call; the body of
    the error is the number of the calls made before. *)
Definition fails_in_turn (calls : nat) : Settled JsValue * nat :=
  (Rejected (StravaServerError "Service Unavailable" (Some 503) (JsNumber (Z.of_nat calls))),
   Datatypes.S calls).

Definition no_attempts : RetryConfig := {|
  opt_maxAttempts := Some 0;
  opt_initialDelay := None;
  opt_maxDelay := None;
  opt_backoffFactor := None;
  opt_retryableStatusCodes := None
|}.

Definition negative_initialDelay : RequiredRetryConfig := {|
  maxAttempts := 3;
  initialDelay := -1000;
  maxDelay := 10000;
  backoffFactor := 2;
  retryableStatusCodes := [429; 500; 502; 503; 504]
|}.

(** Responses with an empty body and no header. *)
Definition empty_response (code : Z) (reason : string) : Response := {|
  status := code;
  statusText := reason;
  headers_get := fun _ => None;
  json := Rejected (JsError "SyntaxError" "Unexpected end of JSON input");
  text := Resolved ""
|}.

Definition not_implemented : Response := empty_response 501 "Not Implemented".
Definition service_unavailable : Response := empty_response 503 "Service Unavailable".

(** A network on which every call is aborted by the timeout; the state
    counts the calls. *)
Definition fetch_aborted (calls : nat) : Settled Response * nat :=
  (Rejected (JsError "AbortError" "The signal has been aborted"), Datatypes.S calls).

(** A stored token that expires at second 2000, with and without a
    non-zero athlete id. *)
Definition stored_token (athlete : option Z) : TokenData := {|
  accessToken := "old-access";
  refreshToken := "old-refresh";
  expiresAt := 2000;
  tokenType := "Bearer";
  scope := Some "read,activity:read_all";
  athleteId := athlete
|}.

(** A token endpoint that grants a new token, without an [athlete] object
    in its response, and one that refuses. *)
Definition endpoint_grants (params : list (string * string)) : Settled TokenHttpResponse :=
  Resolved {|
    token_status := 200;
    token_statusText := "OK";
    token_json := Resolved (JsObject []);
    token_data := Resolved {|
      token_type := "Bearer";
      expires_at := 30000;
      expires_in := 21600;
      refresh_token := "new-refresh";
      access_token := "new-access";
      athlete_id := None
    |}
  |}.

Definition endpoint_refuses (params : list (string * string)) : Settled TokenHttpResponse :=
  Resolved {|
    token_status := 400;
    token_statusText := "Bad Request";
    token_json := Resolved (JsObject [("message", JsString "Bad Request")]);
    token_data := Rejected (JsError "TypeError" "not a token response")
  |}.

Definition manager : OAuthManager := {| clientId := "12345"; clientSecret := "secret" |}.

(** A 429 with the given [Retry-After] header. *)
Definition too_many_requests (retryAfter : string) : Response := {|
  status := 429;
  statusText := "Too Many Requests";
  headers_get := fun name => if String.eqb name "Retry-After" then Some retryAfter else None;
  json := Rejected (JsError "SyntaxError" "Unexpected end of JSON input");
  text := Resolved ""
|}.

(** A network that answers every call with the same response; the state
    counts the calls. *)
Definition fetch_answers (response : Response) (calls : nat) : Settled Response * nat :=
  (Resolved response, Datatypes.S calls).

(** A rate limiter that refuses every request. *)
Definition refusing_limiter : RateLimiter nat := {|
  waitForAvailability := fun s => (Rejected (JsError "Error" "Rate limit exceeded"), s);
  updateFromHeaders := fun _ s => s;
  processQueue := fun s => s
|}.

(** The rate-limit headers of a response that reports the given usage. *)
Definition usage_headers (shortTerm daily : string) (name : string) : option string :=
  if String.eqb name "X-RateLimit-Usage" then Some shortTerm
  else if String.eqb name "X-RateLimit-Usage-Daily" then Some daily
  else None.

(** A token store whose [clear()] fails and leaves the token where it
    is. *)
Definition stuck_store : TokenStore (option TokenData) := {|
  store_get := fun token => (Resolved token, token);
  store_set := fun token _ => (Resolved tt, Some token);
  store_clear := fun token => (Rejected (JsError "Error" "EACCES: permission denied"), token)
|}.

(** A response whose body cannot be read because the signal has aborted:
    [json()] and [text()] reject with the [AbortError]. *)
Definition aborted_body (code : Z) (reason : string) : Response := {|
  status := code;
  statusText := reason;
  headers_get := fun _ => None;
  json := Rejected (JsError "AbortError" "The signal has been aborted");
  text := Rejected (JsError "AbortError" "The signal has been aborted")
|}.

(** A token store that holds a token and cannot be written to. *)
Definition read_only_store : TokenStore (option TokenData) := {|
  store_get := fun token => (Resolved token, token);
  store_set := fun _ token =>
    (Rejected (JsError "Error" "EROFS: read-only file system"), token);
  store_clear := fun _ => (Resolved tt, None)
|}.

(** The token that [endpoint_grants] leads to when [stored_token (Some 7)]
    is refreshed. *)
Definition refreshed_token : TokenData := {|
  accessToken := "new-access";
  refreshToken := "new-refresh";
  expiresAt := 30000;
  tokenType := "Bearer";
  scope := Some "read,activity:read_all";
  athleteId := Some 7
|}.

(** A server that holds the numbers 1 to 5 and serves them in pages; the
    state counts the calls. *)
Definition serves_five (page perPage : Z) (calls : nat) : Settled (list Z) * nat :=
  (Resolved (Pagination.page_of [1; 2; 3; 4; 5] perPage page), Datatypes.S calls).

(** * Properties *)

(** ** Retry *)

Lemma includes_elem_of (codes : list Z) (x : Z) : includes codes x = true <-> x ∈ codes.
Proof.
  unfold includes. rewrite existsb_exists. split.
  - intros (y & Hin & Heq). apply Z.eqb_eq in Heq. subst y. by apply list_elem_of_In.
  - intros Hin. exists x. split; [by apply list_elem_of_In | apply Z.eqb_refl].
Qed.

Lemma not_retryable_status (e : JsValue) (c : Z) (config : RequiredRetryConfig) :
  statusCodeOf e = Some c -> c ∉ retryableStatusCodes config ->
  isRetryable (statusCodeOf e) config = false.
Proof.
  intros -> Hnot. simpl. destruct (includes _ c) eqn:E; [|done].
  apply includes_elem_of in E. contradiction.
Qed.

Section RetryLoop.
Context {T S : Type}.
Variable fn : S -> Settled T * S.
Variable retryConfig : RequiredRetryConfig.
Variable getRetryAfter : option (JsValue -> option Z).

(** The loop always ends when it is given more fuel than it has attempts
    left. *)
Lemma retry_loop_settles (fuel : nat) (attempt : Z) (lastError : JsValue) (s : S) :
  Z.max 0 (maxAttempts retryConfig - attempt + 1) < Z.of_nat fuel ->
  exists r, (retry_loop fn retryConfig getRetryAfter fuel attempt lastError s).1.1 = Some r.
Proof.
  revert attempt lastError s.
  induction fuel as [|fuel IH]; intros attempt lastError s Hfuel; simpl.
  - lia.
  - destruct (Z.leb_spec attempt (maxAttempts retryConfig)) as [Hle|Hgt]; [|by eexists].
    destruct (fn s) as [[v|error] s1]; [by eexists|].
    destruct (Z.geb_spec attempt (maxAttempts retryConfig)) as [Hge|Hlt]; [by eexists|].
    destruct (negb _); [by eexists|].
    destruct (IH (attempt + 1) error s1) as [r Hr]; [lia|].
    destruct (retry_loop _ _ _ fuel _ _ _) as [[out s2] tr]. simpl in *. by eexists.
Qed.

(** The calls a run records are the calls of [fn], each made in the state
    the call before it left, and the run ends in the state of the last. *)
Lemma retry_loop_plays (fuel : nat) (attempt : Z) (lastError : JsValue) (s : S) :
  let run := retry_loop fn retryConfig getRetryAfter fuel attempt lastError s in
  play fn (invocations run.2) s = (attempts run.2, run.1.2).
Proof.
  cbv zeta. revert attempt lastError s.
  induction fuel as [|fuel IH]; intros attempt lastError s; simpl; [done|].
  destruct (attempt <=? maxAttempts retryConfig); [|done].
  destruct (fn s) as [[v|error] s1] eqn:Hfn; [by simpl; rewrite Hfn|].
  destruct (attempt >=? maxAttempts retryConfig); [by simpl; rewrite Hfn|].
  destruct (negb _); [by simpl; rewrite Hfn|].
  specialize (IH (attempt + 1) error s1).
  destruct (retry_loop _ _ _ fuel _ _ _) as [[out s2] tr].
  unfold invocations in *. simpl in *. by rewrite Hfn, IH.
Qed.

(** A failure whose status code is not retryable ends the run. *)
Lemma retry_loop_short_circuit (fuel : nat) (attempt : Z) (lastError : JsValue) (s : S)
    (pre post : list (RetryEvent T)) (n c : Z) (e : JsValue) :
  (retry_loop fn retryConfig getRetryAfter fuel attempt lastError s).2
    = pre ++ EvAttempt n (Rejected e) :: post ->
  statusCodeOf e = Some c ->
  c ∉ retryableStatusCodes retryConfig ->
  post = [] /\
  (retry_loop fn retryConfig getRetryAfter fuel attempt lastError s).1.1 = Some (Rejected e).
Proof.
  intros Htr Hc Hnot. revert attempt lastError s pre Htr.
  induction fuel as [|fuel IH]; intros attempt lastError s pre; simpl.
  - by destruct pre.
  - destruct (attempt <=? maxAttempts retryConfig); [|by destruct pre].
    destruct (fn s) as [[v|error] s1].
    { simpl. destruct pre as [|? [|? ?]]; simpl; intros [=]. }
    destruct (attempt >=? maxAttempts retryConfig).
    { simpl. destruct pre as [|? [|? ?]]; simpl; intros [=]; by subst. }
    destruct (isRetryable (statusCodeOf error) retryConfig) eqn:Hretry; simpl.
    2:{ destruct pre as [|? [|? ?]]; simpl; intros [=]; by subst. }
    specialize (IH (attempt + 1) error s1).
    destruct (retry_loop _ _ _ fuel _ _ _) as [[out s2] tr]. simpl in *.
    destruct pre as [|ev1 [|ev2 pre]]; simpl; intros [=]; subst.
    + rewrite (not_retryable_status _ _ _ Hc Hnot) in Hretry. done.
    + by apply (IH pre).
Qed.
End RetryLoop.

Section RetryExhaustion.
Context {T S : Type}.
Variable fn : S -> Settled T * S.
Variable retryConfig : RequiredRetryConfig.
Variable getRetryAfter : option (JsValue -> option Z).

Hypothesis Hfails : always_fails_retryable fn retryConfig.

(** Entered at [attempt] with enough fuel, the loop calls [fn] once for each
    of the attempts [attempt .. maxAttempts] and rejects with the error of
    the last call, or with [lastError] when no attempt is left. *)
Lemma retry_loop_exhausts (fuel : nat) (attempt : Z) (lastError : JsValue) (s : S) :
  Z.max 0 (maxAttempts retryConfig - attempt + 1) < Z.of_nat fuel ->
  let run := retry_loop fn retryConfig getRetryAfter fuel attempt lastError s in
  invocations run.2 = Z.to_nat (maxAttempts retryConfig - attempt + 1) /\
  exists e, run.1.1 = Some (Rejected e) /\
            last (attempts run.2) = (if attempt <=? maxAttempts retryConfig
                                     then Some (Rejected e) else None) /\
            (maxAttempts retryConfig < attempt -> e = lastError).
Proof.
  cbv zeta. revert attempt lastError s.
  induction fuel as [|fuel IH]; intros attempt lastError s Hfuel; simpl; [lia|].
  destruct (Z.leb_spec attempt (maxAttempts retryConfig)) as [Hle|Hgt].
  2:{ simpl. split; [unfold invocations; simpl; lia|]. exists lastError. done. }
  destruct (Hfails s) as (e1 & s1 & -> & Hretry).
  destruct (Z.geb_spec attempt (maxAttempts retryConfig)) as [Hge|Hlt]; simpl.
  { split; [unfold invocations; simpl; lia|]. exists e1. split_and!; [done..|lia]. }
  rewrite Hretry. simpl.
  destruct (IH (attempt + 1) e1 s1) as (Hcount & e & Hout & Hlast & _); [lia|].
  destruct (retry_loop _ _ _ fuel _ _ _) as [[out s2] tr]. simpl in *.
  destruct (Z.leb_spec (attempt + 1) (maxAttempts retryConfig)); [|lia].
  split.
  - unfold invocations in *. simpl. rewrite Hcount. lia.
  - exists e. split_and!; [done| |lia].
    destruct (attempts tr) as [|r rs]; [done|]. by rewrite last_cons, Hlast.
Qed.
End RetryExhaustion.

Lemma withRetry_fuel (config : option RetryConfig) :
  Z.max 0 (maxAttempts (merge_config config) - 1 + 1)
  < Z.of_nat (Datatypes.S (Z.to_nat (maxAttempts (merge_config config)))).
Proof. lia. Qed.

(** [withRetry] always settles: its promise resolves or rejects. *)
Lemma withRetry_settles {T S : Type} (fn : S -> Settled T * S) (config : option RetryConfig)
    (getRetryAfter : option (JsValue -> option Z)) (s : S) :
  exists r, (withRetry fn config getRetryAfter s).1.1 = Some r.
Proof. apply retry_loop_settles, withRetry_fuel. Qed.

(** C2, as far as it holds: with a retry-after hint the delay is
    [min(retryAfter * 1000, maxDelay)] whatever the attempt number; without
    one it is [min(initialDelay * backoffFactor^(n-1), maxDelay)], never above
    [maxDelay], and, for [backoffFactor >= 1] and [initialDelay >= 0],
    non-decreasing in [n] and stuck at [maxDelay] once it is reached. *)
Theorem calculateDelay_spec (n : Z) (config : RequiredRetryConfig) :
  1 <= n ->
  (forall hint m,
     calculateDelay n config (Some hint) = Z.min (hint * 1000) (maxDelay config) /\
     calculateDelay m config (Some hint) = calculateDelay n config (Some hint)) /\
  calculateDelay n config None
    = Z.min (initialDelay config * backoffFactor config ^ (n - 1)) (maxDelay config) /\
  calculateDelay n config None <= maxDelay config /\
  (1 <= backoffFactor config -> 0 <= initialDelay config ->
   calculateDelay n config None <= calculateDelay (n + 1) config None /\
   (calculateDelay n config None = maxDelay config ->
    calculateDelay (n + 1) config None = maxDelay config)).
Proof.
  intros Hn. unfold calculateDelay. split_and!; [done..|lia|].
  intros Hb Hi.
  assert (Hpow : backoffFactor config ^ (n - 1) <= backoffFactor config ^ (n + 1 - 1))
    by (apply Z.pow_le_mono_r; lia).
  assert (Hmul : initialDelay config * backoffFactor config ^ (n - 1)
                 <= initialDelay config * backoffFactor config ^ (n + 1 - 1))
    by (apply Z.mul_le_mono_nonneg_l; lia).
  lia.
Qed.

(** C2 as stated fails: with [backoffFactor >= 1] and a negative
    [initialDelay] the delay decreases from one attempt to the next. *)
Lemma calculateDelay_negative_initialDelay_decreases :
  1 <= 1 /\ 1 <= backoffFactor negative_initialDelay /\
  calculateDelay 1 negative_initialDelay None = -1000 /\
  calculateDelay (1 + 1) negative_initialDelay None = -2000 /\
  ~ (calculateDelay 1 negative_initialDelay None
     <= calculateDelay (1 + 1) negative_initialDelay None).
Proof. split_and!; [lia | simpl; lia | done | done | vm_compute; intros Hle; by apply Hle]. Qed.

(** C3: in every run of [withRetry], an attempt that fails with an error
    whose status code is not in the configured retryable set (by default
    429, 500, 502, 503, 504) is the last thing the run does, and the run
    rejects with that very error. *)
Theorem withRetry_non_retryable_short_circuit {T S : Type} (fn : S -> Settled T * S)
    (config : option RetryConfig) (getRetryAfter : option (JsValue -> option Z)) (s : S)
    (pre post : list (RetryEvent T)) (n c : Z) (e : JsValue) :
  (withRetry fn config getRetryAfter s).2 = pre ++ EvAttempt n (Rejected e) :: post ->
  statusCodeOf e = Some c ->
  c ∉ retryableStatusCodes (merge_config config) ->
  post = [] /\
  (withRetry fn config getRetryAfter s).1.1 = Some (Rejected e) /\
  retryableStatusCodes (merge_config None) = [429; 500; 502; 503; 504].
Proof.
  intros Htr Hc Hnot.
  destruct (retry_loop_short_circuit fn _ getRetryAfter _ _ _ _ _ _ _ _ _ Htr Hc Hnot).
  done.
Qed.

(** C4: when every attempt fails with a retryable error, [withRetry] makes
    [maxAttempts] calls of the attempt function (3 by default), one after
    the other: the calls it records are those calls and it ends in the
    state the last of them left.  It then rejects, with the error of the
    last call. *)
Theorem withRetry_exhausts {T S : Type} (fn : S -> Settled T * S)
    (config : option RetryConfig) (getRetryAfter : option (JsValue -> option Z)) (s : S) :
  always_fails_retryable fn (merge_config config) ->
  let run := withRetry fn config getRetryAfter s in
  let calls := play fn (Z.to_nat (maxAttempts (merge_config config))) s in
  (attempts run.2, run.1.2) = calls /\
  invocations run.2 = Z.to_nat (maxAttempts (merge_config config)) /\
  (exists e, run.1.1 = Some (Rejected e) /\
             (1 <= maxAttempts (merge_config config) ->
              last calls.1 = Some (Rejected e))) /\
  maxAttempts (merge_config None) = 3.
Proof.
  intros Hfails.
  destruct (retry_loop_exhausts fn _ getRetryAfter Hfails _ 1 JsUndefined s
              (withRetry_fuel config)) as (Hcount & e & Hout & Hlast & _).
  pose proof (retry_loop_plays fn (merge_config config) getRetryAfter
                (Datatypes.S (Z.to_nat (maxAttempts (merge_config config)))) 1 JsUndefined s)
    as Hplays.
  cbv zeta in *. unfold withRetry.
  assert (Hn : invocations
                 (retry_loop fn (merge_config config) getRetryAfter
                    (Datatypes.S (Z.to_nat (maxAttempts (merge_config config)))) 1
                    JsUndefined s).2
               = Z.to_nat (maxAttempts (merge_config config)))
    by (rewrite Hcount; f_equal; lia).
  rewrite Hn in Hplays. rewrite Hplays.
  split_and!; [done|done|exists e; split; [done|]|done].
  intros Hmax. cbn [fst]. rewrite Hlast.
  by destruct (Z.leb_spec 1 (maxAttempts (merge_config config))); [|lia].
Qed.

(** C10: with [maxAttempts <= 0], [withRetry] does not call the attempt
    function (no event, the state is untouched) and rejects with
    [undefined]. *)
Theorem withRetry_no_attempts {T S : Type} (fn : S -> Settled T * S)
    (config : option RetryConfig) (getRetryAfter : option (JsValue -> option Z)) (s : S) :
  maxAttempts (merge_config config) <= 0 ->
  withRetry fn config getRetryAfter s = (Some (Rejected JsUndefined), s, []) /\
  invocations (withRetry fn config getRetryAfter s).2 = 0%nat.
Proof.
  intros Hmax. unfold withRetry. simpl.
  destruct (Z.leb_spec 1 (maxAttempts (merge_config config))); [lia|done].
Qed.

(** ** Deduplication *)

Section DeduplicationFacts.
Context `{RT : Runtime} {F : Type}.
Implicit Types (this : RequestDeduplicator) (world : list F) (factory : F).

(** A call that finds no live entry invokes its factory, returns the new
    promise and records it with the time of the call. *)
Lemma getOrCreate_miss method path query body factory now this world :
  no_live_entry (generateKey method path query body) now this ->
  getOrCreate method path query body factory now this world
  = (length world,
     {| cache := <[generateKey method path query body :=
                    {| promise := length world; timestamp := now |}]> (cache this);
        cleanupInterval := cleanupInterval this;
        windowMs := windowMs this |},
     world ++ [factory]).
Proof.
  unfold no_live_entry, getOrCreate. intros Hdead.
  destruct (cache this !! _) as [cached|]; [|done].
  destruct (Z.ltb_spec (now - timestamp cached) (windowMs this)); [lia|done].
Qed.

(** A call that finds a live entry returns its promise and changes
    nothing. *)
Lemma getOrCreate_hit method path query body factory now this world cached :
  cache this !! generateKey method path query body = Some cached ->
  now - timestamp cached < windowMs this ->
  getOrCreate method path query body factory now this world = (promise cached, this, world).
Proof.
  unfold getOrCreate. intros -> Hlive.
  destruct (Z.ltb_spec (now - timestamp cached) (windowMs this)); [done|lia].
Qed.

(** The sweep keeps the entries younger than the window. *)
Lemma cleanup_keeps_live key now this cached :
  cache this !! key = Some cached ->
  now - timestamp cached < windowMs this ->
  cache (cleanup now this) !! key = Some cached /\
  windowMs (cleanup now this) = windowMs this.
Proof.
  intros Hkey Hlive. split; [|done]. simpl.
  apply map_lookup_filter_Some. split; [done|]. simpl. lia.
Qed.

(** While the entry of a request stays younger than the window, every call
    for that request is served from it and no factory is invoked. *)
Lemma run_ops_served method path query body ops this world cached :
  cache this !! generateKey method path query body = Some cached ->
  Forall (same_request method path query body) ops ->
  Forall (fun op => op_time op - timestamp cached < windowMs this) ops ->
  exists this',
    run_ops ops this world
    = (replicate (count_calls ops) (promise cached),
       this', world) /\
    cache this' !! generateKey method path query body = Some cached.
Proof.
  intros Hkey Hsame. revert this Hkey.
  induction Hsame as [|op ops Hop _ IH]; intros this Hkey Htime.
  - by exists this.
  - apply Forall_cons in Htime as [Hnow Htime].
    destruct op as [m p q b factory now|now]; simpl in *.
    + destruct Hop as (-> & -> & -> & ->).
      rewrite (getOrCreate_hit _ _ _ _ _ _ _ _ _ Hkey Hnow).
      destruct (IH this Hkey Htime) as (this' & -> & Hkey').
      by exists this'.
    + destruct (cleanup_keeps_live _ now _ _ Hkey Hnow) as [Hkey' Hwin].
      destruct (IH (cleanup now this) Hkey') as (this' & Hrun & Hkey''); [|by exists this'].
      by rewrite Hwin.
Qed.
End DeduplicationFacts.

Section DeduplicationProperties.
Context `{RT : Runtime} {F : Type}.
Implicit Types (this : RequestDeduplicator) (world : list F) (factory : F).

(** C1: a call at [T0] that finds no live entry invokes its factory; as
    long as that entry is younger than the window, every further call with
    the same method, path, query and body returns the promise of the first
    call, whatever factory it brings and whether or not the sweep runs in
    between, and no factory is invoked again.  The callers hold one and the
    same promise, hence see one and the same outcome. *)
Theorem getOrCreate_single_flight method path query body factory (T0 : Z) this world
    (ops : list DedupOp) :
  no_live_entry (generateKey method path query body) T0 this ->
  Forall (same_request method path query body) ops ->
  Forall (fun op => op_time op - T0 < windowMs this) ops ->
  let first := getOrCreate method path query body factory T0 this world in
  let rest := run_ops ops first.1.2 first.2 in
  first.2 = world ++ [factory] /\
  rest.2 = first.2 /\
  rest.1.1 = replicate (count_calls ops) first.1.1.
Proof.
  intros Hdead Hsame Htime. cbv zeta.
  rewrite (getOrCreate_miss _ _ _ _ _ _ _ _ Hdead). simpl.
  set (entry := {| promise := length world; timestamp := T0 |}).
  set (this1 := {| cache := _ |}).
  assert (Hkey : cache this1 !! generateKey method path query body = Some entry)
    by apply lookup_insert_eq.
  destruct (run_ops_served _ _ _ _ ops this1 (world ++ [factory]) entry Hkey Hsame Htime)
    as (this' & -> & _).
  done.
Qed.

(** C9: a call at [T1] that finds no live entry and a call for the same
    request at [T2 >= T1 + windowMs] invoke both their factories and return
    two different promises; in general an entry whose age has reached the
    window is not served: the call invokes its factory, returns the new
    promise and puts it in the place of the old entry. *)
Theorem getOrCreate_expiry method path query body (f1 f2 : F) (T1 T2 : Z) this world :
  no_live_entry (generateKey method path query body) T1 this ->
  T1 + windowMs this <= T2 ->
  let first := getOrCreate method path query body f1 T1 this world in
  let second := getOrCreate method path query body f2 T2 first.1.2 first.2 in
  (second.2 = world ++ [f1; f2] /\
   first.1.1 ≠ second.1.1 /\
   cache second.1.2 !! generateKey method path query body
     = Some {| promise := second.1.1; timestamp := T2 |}) /\
  (forall factory now cached,
     cache this !! generateKey method path query body = Some cached ->
     windowMs this <= now - timestamp cached ->
     let call := getOrCreate method path query body factory now this world in
     call.2 = world ++ [factory] /\
     call.1.1 = length world /\
     ((promise cached < length world)%nat -> call.1.1 ≠ promise cached) /\
     cache call.1.2 !! generateKey method path query body
       = Some {| promise := call.1.1; timestamp := now |}).
Proof.
  intros Hdead Hlate. cbv zeta. split.
  - rewrite (getOrCreate_miss _ _ _ _ _ _ _ _ Hdead). simpl.
    rewrite getOrCreate_miss.
    + simpl. rewrite <- app_assoc. simpl. split_and!; [done| |].
      * rewrite length_app. simpl. lia.
      * apply lookup_insert_eq.
    + unfold no_live_entry. simpl. rewrite lookup_insert_eq. simpl. lia.
  - intros factory now cached Hkey Hold.
    rewrite getOrCreate_miss by (unfold no_live_entry; by rewrite Hkey).
    simpl. split_and!; [done|done|lia|apply lookup_insert_eq].
Qed.
End DeduplicationProperties.

(** ** The request layer *)

Section RequestProperties.
Context `{RT : Runtime}.

(** C7, as far as it holds: for a response with status 500, 502, 503 or
    504 the error is a [StravaServerError] and is retryable under the default
    configuration; the error for any other status of the 5xx range is not
    retryable under the default configuration.  In both cases the error
    carries the status of the response. *)
Theorem createErrorFromResponse_5xx (response : Response) :
  500 <= status response <= 599 ->
  let error := createErrorFromResponse response in
  statusCodeOf error = Some (status response) /\
  (status response ∈ [500; 502; 503; 504] ->
   error_class error = Some ClsStravaServerError /\
   isRetryable (statusCodeOf error) DEFAULT_RETRY_CONFIG = true) /\
  (status response ∉ [500; 502; 503; 504] ->
   isRetryable (statusCodeOf error) DEFAULT_RETRY_CONFIG = false).
Proof.
  intros Hrange. cbv zeta. unfold createErrorFromResponse.
  remember (status response) as code eqn:Hcode. clear Hcode.
  destruct (Z.eqb_spec code 401); [lia|].
  destruct (Z.eqb_spec code 403); [lia|].
  destruct (Z.eqb_spec code 404); [lia|].
  destruct (Z.eqb_spec code 422); [lia|].
  destruct (Z.eqb_spec code 429); [lia|].
  simpl. rewrite !elem_of_cons, elem_of_nil.
  destruct (Z.eqb_spec code 500) as [->|?]; [by split_and!; [| |tauto]|].
  destruct (Z.eqb_spec code 502) as [->|?]; [by split_and!; [| |tauto]|].
  destruct (Z.eqb_spec code 503) as [->|?]; [by split_and!; [| |tauto]|].
  destruct (Z.eqb_spec code 504) as [->|?]; [by split_and!; [| |tauto]|].
  simpl. split_and!; [done|tauto|]. intros _.
  destruct (Z.eqb_spec code 429); [done|].
  destruct (Z.eqb_spec code 500); [done|].
  destruct (Z.eqb_spec code 502); [done|].
  destruct (Z.eqb_spec code 503); [done|].
  destruct (Z.eqb_spec code 504); [done|].
  done.
Qed.

(** C8, as far as it holds.  When the timeout aborts the network call
    before the response is there, so that [fetch] rejects with an
    [AbortError], or while the body of a 2xx response is read, so that
    [response.json()] does, the attempt rejects with a [StravaError] whose
    message is the timeout message and whose cause is the abort.  That
    failure has no status code and differs from every failure the generic
    branch produces; every configuration counts it as retryable, and when
    attempts are left [request] sleeps for the computed backoff and goes
    on. *)
Theorem makeRequest_timeout {S : Type} (fetch : S -> Settled Response * S)
    (applyTransformations : JsValue -> JsValue) (timeout : Z)
    (rateLimiter : option (RateLimiter S)) (s s1 s2 : S) (reason : string) :
  admission rateLimiter s = (Resolved tt, s1) ->
  (fetch s1 = (Rejected (JsError "AbortError" reason), s2) \/
   exists response,
     fetch s1 = (Resolved response, s2) /\
     ok response = true /\
     json response = Rejected (JsError "AbortError" reason)) ->
  let failure :=
    StravaError ("Request timeout after " +:+ pretty timeout +:+ "ms") None
                (JsError "AbortError" reason) in
  (makeRequest fetch applyTransformations timeout rateLimiter s).1 = Rejected failure /\
  (fetch s1 = (Rejected (JsError "AbortError" reason), s2) ->
   makeRequest fetch applyTransformations timeout rateLimiter s = (Rejected failure, s2)) /\
  error_class failure = Some ClsStravaError /\
  statusCodeOf failure = None /\
  (forall error,
     instanceof_StravaError error = false ->
     (instanceof_Error error && String.eqb (error_name error) "AbortError") = false ->
     rethrow timeout error <> failure) /\
  (forall config,
     isRetryable (statusCodeOf failure) (merge_config config) = true /\
     (2 <= maxAttempts (merge_config config) ->
      exists rest,
        (request fetch applyTransformations timeout rateLimiter config s).2
        = EvAttempt 1 (Rejected failure)
            :: EvSleep (calculateDelay 1 (merge_config config) None) :: rest)).
Proof.
  intros Hadmit Habort. cbv zeta.
  assert (Hrun : (makeRequest fetch applyTransformations timeout rateLimiter s).1
                 = Rejected (StravaError ("Request timeout after " +:+ pretty timeout +:+ "ms")
                               None (JsError "AbortError" reason))).
  { unfold makeRequest. rewrite Hadmit.
    destruct Habort as [->|(response & -> & Hok & Hjson)]; [done|].
    by rewrite Hok, Hjson. }
  split_and!; [done| |done|done| |].
  - intros Hfetch. unfold makeRequest. by rewrite Hadmit, Hfetch.
  - intros error Hstrava Hother. unfold rethrow. rewrite Hstrava, Hother.
    unfold StravaError. intros [= _ ->]. done.
  - intros config. split; [done|]. intros Hmax.
    destruct (makeRequest fetch applyTransformations timeout rateLimiter s)
      as [attempt s3] eqn:Hattempt.
    simpl in Hrun. subst attempt.
    unfold request, withRetry. simpl. rewrite Hattempt.
    destruct (Z.leb_spec 1 (maxAttempts (merge_config config))); [|lia].
    destruct (Z.geb_spec 1 (maxAttempts (merge_config config))); [lia|].
    simpl. destruct (retry_loop _ _ _ _ _ _ _) as [[out s4] rest]. by exists rest.
Qed.
End RequestProperties.

(** ** Token management *)

Lemma isTokenExpired_iff (token : TokenData) (bufferSeconds now_ms : Z) :
  isTokenExpired token bufferSeconds now_ms = true
  <-> expiresAt token <= now_ms / 1000 + bufferSeconds.
Proof. unfold isTokenExpired. apply Z.leb_le. Qed.

Section OAuthProperties.
Context `{RT : Runtime}.
Variable post_token : list (string * string) -> Settled TokenHttpResponse.
Context {St : Type} `{TS : TokenStore St}.
Variable this : OAuthManager.

(** C5, as far as it holds.  For a stored token with
    [expiresAt <= now + 300] whose refresh exchange succeeds, [getToken]
    makes that one exchange, writes the refreshed record to the store and
    returns it; the record has the four token fields of the response, the
    scope of the old record, the athlete id of the old record when that is
    a number other than zero, and the athlete id of the response when the old
    record has none.  For a stored token further than 300 seconds from
    expiry, [getToken] returns it as it is, after reading the store and
    nothing else. *)
Theorem getToken_refresh_on_expiry (now_ms : Z) (st st1 : St) (token : TokenData) :
  store_get st = (Resolved (Some token), st1) ->
  (expiresAt token <= now_ms / 1000 + 300 ->
   forall newToken,
     refreshAccessToken post_token (refreshToken token) (clientId this) (clientSecret this)
       = Resolved newToken ->
     (forall t, (store_set t st1).1 = Resolved tt) ->
     exists refreshedToken,
       getToken post_token this now_ms st
         = (Resolved (Some refreshedToken), (store_set refreshedToken st1).2,
            [EvStoreGet;
             EvRefreshExchange (refreshToken token) (clientId this) (clientSecret this);
             EvStoreSet refreshedToken]) /\
       accessToken refreshedToken = accessToken newToken /\
       refreshToken refreshedToken = refreshToken newToken /\
       expiresAt refreshedToken = expiresAt newToken /\
       tokenType refreshedToken = tokenType newToken /\
       scope refreshedToken = scope token /\
       (forall id, athleteId token = Some id -> id <> 0 ->
                   athleteId refreshedToken = Some id) /\
       (athleteId token = None -> athleteId refreshedToken = athleteId newToken)) /\
  (now_ms / 1000 + 300 < expiresAt token ->
   getToken post_token this now_ms st = (Resolved (Some token), st1, [EvStoreGet])).
Proof.
  intros Hget. unfold getToken. rewrite Hget. split.
  - intros Hexp newToken Hrefresh Hset.
    apply isTokenExpired_iff in Hexp. rewrite Hexp, Hrefresh.
    set (refreshed :=
           {| accessToken := accessToken newToken;
              refreshToken := refreshToken newToken;
              expiresAt := expiresAt newToken;
              tokenType := tokenType newToken;
              scope := scope token;
              athleteId := or_else (athleteId token) (athleteId newToken) |}).
    exists refreshed. split.
    + specialize (Hset refreshed).
      destruct (store_set refreshed st1) as [[[]|e] st2]; simpl in *; [reflexivity|discriminate].
    + simpl. split_and!; try done.
      * intros id -> Hid. simpl. by destruct (Z.eqb_spec id 0).
      * by intros ->.
  - intros Hfresh.
    destruct (isTokenExpired token 300 now_ms) eqn:Hexp; [|done].
    apply isTokenExpired_iff in Hexp. lia.
Qed.

(** C6, as far as it holds.  For a stored token with
    [expiresAt <= now + 300] whose refresh exchange fails, [getToken] calls
    [clear()] on the store after the exchange, as its last step, and
    rejects: the failure is never turned into a returned value.  When
    [clear()] completes, the store is in the state [clear()] left and the
    rejection is the error of the exchange. *)
Theorem getToken_refresh_failure (now_ms : Z) (st st1 : St) (token : TokenData)
    (e : JsValue) :
  store_get st = (Resolved (Some token), st1) ->
  expiresAt token <= now_ms / 1000 + 300 ->
  refreshAccessToken post_token (refreshToken token) (clientId this) (clientSecret this)
    = Rejected e ->
  let run := getToken post_token this now_ms st in
  (forall st2,
     store_clear st1 = (Resolved tt, st2) ->
     run = (Rejected e, st2,
            [EvStoreGet;
             EvRefreshExchange (refreshToken token) (clientId this) (clientSecret this);
             EvStoreClear])) /\
  (exists e', run.1.1 = Rejected e') /\
  run.1.2 = (store_clear st1).2 /\
  run.2 = [EvStoreGet;
           EvRefreshExchange (refreshToken token) (clientId this) (clientSecret this);
           EvStoreClear].
Proof.
  intros Hget Hexp Hrefresh. cbv zeta. unfold getToken.
  apply isTokenExpired_iff in Hexp. rewrite Hget, Hexp, Hrefresh.
  destruct (store_clear st1) as [[[]|e'] st3]; simpl.
  - split_and!; [by intros st2 [= <-]|by eexists|done|done].
  - split_and!; [by intros st2 [=]|by eexists|done|done].
Qed.
End OAuthProperties.

(** ** More on retry *)

Lemma calculateDelay_le_maxDelay (attempt : Z) (config : RequiredRetryConfig)
    (retryAfter : option Z) :
  calculateDelay attempt config retryAfter <= maxDelay config.
Proof. unfold calculateDelay. destruct retryAfter; lia. Qed.

Section RetryRuns.
Context {T S : Type}.
Variable fn : S -> Settled T * S.
Variable retryConfig : RequiredRetryConfig.
Variable getRetryAfter : option (JsValue -> option Z).

(** Entered with an attempt left, the loop calls [fn]. *)
Lemma retry_loop_attempts (fuel : nat) (attempt : Z) (lastError : JsValue) (s : S) :
  attempt <= maxAttempts retryConfig ->
  exists r rest,
    attempts (retry_loop fn retryConfig getRetryAfter (Datatypes.S fuel) attempt lastError s).2
    = r :: rest.
Proof.
  intros Hle. simpl.
  destruct (Z.leb_spec attempt (maxAttempts retryConfig)); [|lia].
  destruct (fn s) as [[v|e] s1]; [by eexists _, _|].
  destruct (_ >=? _); [by eexists _, _|].
  destruct (negb _); [by eexists _, _|].
  destruct (retry_loop _ _ _ fuel _ _ _) as [[o s2] tr]. by eexists _, _.
Qed.

(** What a run looks like: calls and sleeps alternate, a call first and a
    call last; there are no more calls than attempts left and no sleep is
    longer than [maxDelay]. *)
Lemma retry_loop_shape (fuel : nat) (attempt : Z) (lastError : JsValue) (s : S) :
  Z.max 0 (maxAttempts retryConfig - attempt + 1) < Z.of_nat fuel ->
  let tr := (retry_loop fn retryConfig getRetryAfter fuel attempt lastError s).2 in
  (invocations tr <= Z.to_nat (maxAttempts retryConfig - attempt + 1))%nat /\
  length (sleeps tr) = Nat.pred (invocations tr) /\
  Forall (fun ms => ms <= maxDelay retryConfig) (sleeps tr).
Proof.
  cbv zeta. revert attempt lastError s.
  induction fuel as [|fuel IH]; intros attempt lastError s Hfuel; [lia|]. simpl.
  destruct (Z.leb_spec attempt (maxAttempts retryConfig)) as [Hle|Hgt].
  2:{ split_and!; [unfold invocations; simpl; lia | done | constructor]. }
  destruct (fn s) as [[v|error] s1].
  { split_and!; [unfold invocations; simpl; lia | done | constructor]. }
  destruct (Z.geb_spec attempt (maxAttempts retryConfig)) as [Hge|Hlt].
  { split_and!; [unfold invocations; simpl; lia | done | constructor]. }
  destruct (negb _).
  { split_and!; [unfold invocations; simpl; lia | done | constructor]. }
  destruct (IH (attempt + 1) error s1) as (Hcount & Hsleeps & Hmax); [lia|].
  destruct fuel as [|fuel']; [lia|].
  destruct (retry_loop_attempts fuel' (attempt + 1) error s1) as (r & rest & Hfirst); [lia|].
  destruct (retry_loop _ _ _ (Datatypes.S fuel') _ _ _) as [[out s2] tr].
  unfold invocations in *. simpl in *. rewrite Hfirst in *. simpl in *. split_and!.
  - lia.
  - by rewrite Hsleeps.
  - constructor; [apply calculateDelay_le_maxDelay | done].
Qed.

(** Where the sleeps fall and how long they are: an attempt, a sleep, an
    attempt, and so on, an attempt last; the sleep after a failed attempt is
    the delay computed for its number and its error. *)
Lemma retry_loop_weave (fuel : nat) (attempt : Z) (lastError : JsValue) (s : S) :
  Z.max 0 (maxAttempts retryConfig - attempt + 1) < Z.of_nat fuel ->
  let tr := (retry_loop fn retryConfig getRetryAfter fuel attempt lastError s).2 in
  tr = weave attempt (attempts tr) (sleeps tr) /\
  sleeps tr
  = backoff_schedule retryConfig getRetryAfter attempt (failures (removelast (attempts tr))).
Proof.
  cbv zeta. revert attempt lastError s.
  induction fuel as [|fuel IH]; intros attempt lastError s Hfuel; [lia|]. simpl.
  destruct (Z.leb_spec attempt (maxAttempts retryConfig)) as [Hle|Hgt]; [|done].
  destruct (fn s) as [[v|error] s1]; [done|].
  destruct (Z.geb_spec attempt (maxAttempts retryConfig)) as [Hge|Hlt]; [done|].
  destruct (negb _); [done|].
  destruct (IH (attempt + 1) error s1) as [Hweave Hsleeps]; [lia|].
  destruct fuel as [|fuel']; [lia|].
  destruct (retry_loop_attempts fuel' (attempt + 1) error s1) as (r & rest & Hfirst); [lia|].
  destruct (retry_loop _ _ _ (Datatypes.S fuel') _ _ _) as [[out s2] tr].
  simpl in *. rewrite Hfirst in *. split.
  - do 2 f_equal. exact Hweave.
  - change (removelast (Rejected error :: r :: rest))
      with (Rejected error :: removelast (r :: rest)).
    change (failures (Rejected error :: removelast (r :: rest)))
      with (error :: failures (removelast (r :: rest))).
    change (backoff_schedule retryConfig getRetryAfter attempt
              (error :: failures (removelast (r :: rest))))
      with (calculateDelay attempt retryConfig
              (match getRetryAfter with Some g => g error | None => None end)
            :: backoff_schedule retryConfig getRetryAfter (attempt + 1)
                 (failures (removelast (r :: rest)))).
    f_equal. exact Hsleeps.
Qed.

(** The run settles as its last call did; without any call it rejects with
    [lastError]. *)
Lemma retry_loop_last (fuel : nat) (attempt : Z) (lastError : JsValue) (s : S) :
  Z.max 0 (maxAttempts retryConfig - attempt + 1) < Z.of_nat fuel ->
  let run := retry_loop fn retryConfig getRetryAfter fuel attempt lastError s in
  run.1.1 = Some (default (Rejected lastError) (last (attempts run.2))) /\
  (attempts run.2 = [] <-> maxAttempts retryConfig < attempt).
Proof.
  cbv zeta. revert attempt lastError s.
  induction fuel as [|fuel IH]; intros attempt lastError s Hfuel; [lia|]. simpl.
  destruct (Z.leb_spec attempt (maxAttempts retryConfig)) as [Hle|Hgt].
  2:{ simpl. split; [done|]. split; [lia|done]. }
  destruct (fn s) as [[v|error] s1]; [simpl; split; [done|split; [done|lia]]|].
  destruct (Z.geb_spec attempt (maxAttempts retryConfig)) as [Hge|Hlt];
    [simpl; split; [done|split; [done|lia]]|].
  destruct (negb _); [simpl; split; [done|split; [done|lia]]|].
  destruct (IH (attempt + 1) error s1) as [Hout Hnone]; [lia|].
  destruct (retry_loop _ _ _ fuel _ _ _) as [[out s2] tr]. simpl in *.
  split; [|split; [done|lia]].
  destruct (attempts tr) as [|r rest] eqn:Hatt.
  - destruct Hnone as [Hnone _]. specialize (Hnone eq_refl). lia.
  - rewrite Hout. simpl.
    destruct (last (r :: rest)) eqn:Hlast; [done|]. by apply last_None in Hlast.
Qed.

(** A call that resolves is the last thing a run does. *)
Lemma retry_loop_success_stops (fuel : nat) (attempt : Z) (lastError : JsValue) (s : S)
    (pre post : list (RetryEvent T)) (n : Z) (v : T) :
  (retry_loop fn retryConfig getRetryAfter fuel attempt lastError s).2
    = pre ++ EvAttempt n (Resolved v) :: post ->
  post = [] /\
  (retry_loop fn retryConfig getRetryAfter fuel attempt lastError s).1.1 = Some (Resolved v).
Proof.
  revert attempt lastError s pre.
  induction fuel as [|fuel IH]; intros attempt lastError s pre; simpl.
  - by destruct pre.
  - destruct (attempt <=? maxAttempts retryConfig); [|by destruct pre].
    destruct (fn s) as [[v'|error] s1].
    { simpl. destruct pre as [|? [|? ?]]; simpl; intros [=]; by subst. }
    destruct (attempt >=? maxAttempts retryConfig).
    { simpl. destruct pre as [|? [|? ?]]; simpl; intros [=]. }
    destruct (negb _); simpl.
    { destruct pre as [|? [|? ?]]; simpl; intros [=]. }
    specialize (IH (attempt + 1) error s1).
    destruct (retry_loop _ _ _ fuel _ _ _) as [[out s2] tr]. simpl in *.
    destruct pre as [|ev1 [|ev2 pre]]; simpl; intros [=]; subst.
    by apply (IH pre).
Qed.
End RetryRuns.

(** X1: the course of a run.  Whatever the attempt function does, the run
    is a call of it, a sleep, a call, and so on, with a call last: the calls
    are those of the attempt function, each made in the state the one before
    left, numbered from 1, and the sleep after a failed call is the delay
    computed for its number and its error.  There is a call whenever
    [maxAttempts >= 1], there are at most [maxAttempts] calls, one sleep
    fewer than calls, and no sleep is longer than [maxDelay]. *)
Theorem withRetry_run_shape {T S : Type} (fn : S -> Settled T * S)
    (config : option RetryConfig) (getRetryAfter : option (JsValue -> option Z)) (s : S) :
  let tr := (withRetry fn config getRetryAfter s).2 in
  let calls := (play fn (invocations tr) s).1 in
  tr = weave 1 calls
         (backoff_schedule (merge_config config) getRetryAfter 1 (failures (removelast calls))) /\
  (1 <= maxAttempts (merge_config config) -> exists rest, tr = EvAttempt 1 (fn s).1 :: rest) /\
  (invocations tr <= Z.to_nat (maxAttempts (merge_config config)))%nat /\
  length (sleeps tr) = Nat.pred (invocations tr) /\
  Forall (fun ms => ms <= maxDelay (merge_config config)) (sleeps tr).
Proof.
  pose proof (retry_loop_shape fn (merge_config config) getRetryAfter _ 1 JsUndefined s
                (withRetry_fuel config)) as Hshape.
  pose proof (retry_loop_weave fn (merge_config config) getRetryAfter _ 1 JsUndefined s
                (withRetry_fuel config)) as [Hweave Hsleeps].
  pose proof (retry_loop_plays fn (merge_config config) getRetryAfter
                (Datatypes.S (Z.to_nat (maxAttempts (merge_config config)))) 1 JsUndefined s)
    as Hplays.
  cbv zeta in *. unfold withRetry.
  replace (maxAttempts (merge_config config) - 1 + 1) with (maxAttempts (merge_config config))
    in Hshape by lia.
  rewrite Hplays. cbn [fst]. rewrite <- Hsleeps.
  split; [exact Hweave|]. split; [|exact Hshape].
  intros Hmax.
  destruct (retry_loop_attempts fn (merge_config config) getRetryAfter
              (Z.to_nat (maxAttempts (merge_config config))) 1 JsUndefined s Hmax)
    as (r & later & Hfirst).
  rewrite Hfirst in Hplays.
  destruct (retry_loop _ _ _ _ _ _ _) as [[out s2] tr]. cbn [fst snd] in *.
  rewrite Hweave, Hfirst.
  unfold invocations in Hplays. rewrite Hfirst in Hplays. simpl in Hplays.
  destruct (fn s) as [r0 s1]. destruct (play fn (length later) s1) as [rs s3].
  injection Hplays as -> _ _. simpl. by eexists.
Qed.

(** X2: [withRetry] settles exactly as the last call of the attempt function
    did, so that no failure is replaced and no result invented: the calls it
    records are the calls of the attempt function, each made in the state
    the one before left, it ends in the state the last of them left, and it
    resolves or rejects as that call did.  It settles without any call only
    for [maxAttempts <= 0], rejecting with [undefined]. *)
Theorem withRetry_settles_as_last_attempt {T S : Type} (fn : S -> Settled T * S)
    (config : option RetryConfig) (getRetryAfter : option (JsValue -> option Z)) (s : S) :
  let run := withRetry fn config getRetryAfter s in
  let calls := play fn (invocations run.2) s in
  (attempts run.2, run.1.2) = calls /\
  run.1.1 = Some (default (Rejected JsUndefined) (last calls.1)) /\
  (attempts run.2 = [] <-> maxAttempts (merge_config config) <= 0).
Proof.
  destruct (retry_loop_last fn (merge_config config) getRetryAfter _ 1 JsUndefined s
              (withRetry_fuel config)) as [Hout Hnone].
  pose proof (retry_loop_plays fn (merge_config config) getRetryAfter
                (Datatypes.S (Z.to_nat (maxAttempts (merge_config config)))) 1 JsUndefined s)
    as Hplays.
  cbv zeta in *. unfold withRetry. rewrite Hplays. cbn [fst].
  split_and!; [done|done|]. rewrite Hnone. lia.
Qed.

(** X3: a call of the attempt function that resolves ends the run: nothing
    is called or slept after it and [withRetry] resolves with its value. *)
Theorem withRetry_success_stops {T S : Type} (fn : S -> Settled T * S)
    (config : option RetryConfig) (getRetryAfter : option (JsValue -> option Z)) (s : S)
    (pre post : list (RetryEvent T)) (n : Z) (v : T) :
  (withRetry fn config getRetryAfter s).2 = pre ++ EvAttempt n (Resolved v) :: post ->
  post = [] /\ (withRetry fn config getRetryAfter s).1.1 = Some (Resolved v).
Proof. apply retry_loop_success_stops. Qed.

Section RetryRecovery.
Context {T : Type}.
Variable retryConfig : RequiredRetryConfig.
Variable getRetryAfter : option (JsValue -> option Z).

Lemma retry_loop_recovers (errors : list JsValue) (v : T) (beyond : Settled T) :
  forall (played : list (Settled T)) (fuel : nat) (attempt : Z) (lastError : JsValue),
    Forall (fun e => isRetryable (statusCodeOf e) retryConfig = true) errors ->
    attempt + Z.of_nat (length errors) <= maxAttempts retryConfig ->
    Z.max 0 (maxAttempts retryConfig - attempt + 1) < Z.of_nat fuel ->
    let run :=
      retry_loop (scripted (played ++ map Rejected errors ++ [Resolved v]) beyond)
                 retryConfig getRetryAfter fuel attempt lastError (length played) in
    run.1 = (Some (Resolved v), Datatypes.S (length played + length errors)) /\
    attempts run.2 = map Rejected errors ++ [Resolved v] /\
    sleeps run.2 = backoff_schedule retryConfig getRetryAfter attempt errors.
Proof.
  induction errors as [|e errors IH];
    intros played fuel attempt lastError Hretry Hle Hfuel; cbv zeta;
    (destruct fuel as [|fuel]; [lia|]); simpl in *.
  - destruct (Z.leb_spec attempt (maxAttempts retryConfig)); [|lia].
    unfold scripted at 1. rewrite nth_middle. simpl.
    split_and!; [do 2 f_equal; lia|done..].
  - apply Forall_cons in Hretry as [He Hretry].
    destruct (Z.leb_spec attempt (maxAttempts retryConfig)); [|lia].
    unfold scripted at 1. rewrite nth_middle.
    destruct (Z.geb_spec attempt (maxAttempts retryConfig)); [lia|].
    rewrite He. simpl.
    specialize (IH (played ++ [Rejected e]) fuel (attempt + 1) e Hretry).
    rewrite length_app in IH. simpl in IH.
    replace (length played + 1)%nat with (Datatypes.S (length played)) in IH by lia.
    rewrite <- app_assoc in IH. simpl in IH.
    destruct IH as (Hout & Hatt & Hsl); [lia..|].
    destruct (retry_loop _ _ _ fuel _ _ _) as [[out s2] tr]. simpl in *.
    split_and!; [|by rewrite Hatt|by rewrite Hsl].
    rewrite Hout. do 2 f_equal. lia.
Qed.
End RetryRecovery.

(** X4: when the attempt function fails [k < maxAttempts] times with
    retryable errors and then resolves, [withRetry] resolves with that value
    after [k + 1] calls, having slept after the failure of attempt [i] for
    [calculateDelay i] with the retry-after hint of that failure. *)
Theorem withRetry_recovers {T : Type} (errors : list JsValue) (v : T) (beyond : Settled T)
    (config : option RetryConfig) (getRetryAfter : option (JsValue -> option Z)) :
  Forall (fun e => isRetryable (statusCodeOf e) (merge_config config) = true) errors ->
  Z.of_nat (length errors) < maxAttempts (merge_config config) ->
  let run :=
    withRetry (scripted (map Rejected errors ++ [Resolved v]) beyond) config getRetryAfter
              0%nat in
  run.1 = (Some (Resolved v), Datatypes.S (length errors)) /\
  attempts run.2 = map Rejected errors ++ [Resolved v] /\
  sleeps run.2 = backoff_schedule (merge_config config) getRetryAfter 1 errors.
Proof.
  intros Hretry Hlen.
  apply (retry_loop_recovers (merge_config config) getRetryAfter errors v beyond []);
    [done|lia|apply withRetry_fuel].
Qed.

(** ** More on deduplication *)

Lemma string_app_assoc (s1 s2 s3 : string) : (s1 +:+ s2) +:+ s3 = s1 +:+ s2 +:+ s3.
Proof.
  induction s1 as [|c s1 IH]; [done|].
  change (String c ((s1 +:+ s2) +:+ s3) = String c (s1 +:+ s2 +:+ s3)). by rewrite IH.
Qed.

Lemma string_app_empty_r (s : string) : s +:+ "" = s.
Proof.
  induction s as [|c s IH]; [done|].
  change (String c (s +:+ "") = String c s). by rewrite IH.
Qed.

Section DeduplicationRunFacts.
Context `{RT : Runtime} {F : Type}.
Implicit Types (this : RequestDeduplicator) (world : list F) (factory : F).

Lemma same_live_entries_refl t this : same_live_entries t this this.
Proof. by split. Qed.

Lemma same_live_entries_later t t' this this' :
  t <= t' -> same_live_entries t this this' -> same_live_entries t' this this'.
Proof. intros Hle [Hwin Hsame]. split; [done|]. intros key cached Hlive. apply Hsame. lia. Qed.

Lemma same_live_entries_cleanup t this this' :
  same_live_entries t this this' -> same_live_entries t (cleanup t this) this'.
Proof.
  intros [Hwin Hsame]. split; [done|]. intros key cached Hlive. simpl in *.
  rewrite map_lookup_filter_Some. simpl. rewrite <- (Hsame key cached Hlive).
  split; [by intros [? _]|]. intros Hkey. split; [done|lia].
Qed.

Lemma same_live_entries_getOrCreate method path query body factory now this this' world :
  same_live_entries now this this' ->
  let call := getOrCreate method path query body factory now this world in
  let call' := getOrCreate method path query body factory now this' world in
  call.1.1 = call'.1.1 /\ call.2 = call'.2 /\ same_live_entries now call.1.2 call'.1.2.
Proof.
  intros [Hwin Hsame]. cbv zeta. unfold getOrCreate. rewrite <- Hwin.
  set (key := generateKey method path query body).
  assert (Hfresh : forall c c' : gmap string CacheEntry,
            (forall k e, now - timestamp e < windowMs this -> c !! k = Some e <-> c' !! k = Some e) ->
            forall entry k e, now - timestamp e < windowMs this ->
              <[key := entry]> c !! k = Some e <-> <[key := entry]> c' !! k = Some e).
  { intros c c' Hcc entry k e Hlive. destruct (decide (key = k)) as [<-|Hne].
    - by rewrite !lookup_insert_eq.
    - rewrite !lookup_insert_ne by done. by apply Hcc. }
  destruct (cache this !! key) as [cached|] eqn:Hkey;
    destruct (cache this' !! key) as [cached'|] eqn:Hkey'.
  - destruct (Z.ltb_spec (now - timestamp cached) (windowMs this)) as [Hlive|Hdead];
      destruct (Z.ltb_spec (now - timestamp cached') (windowMs this)) as [Hlive'|Hdead'].
    + apply (Hsame key cached Hlive) in Hkey. rewrite Hkey in Hkey'. injection Hkey' as <-.
      by split_and!.
    + apply (Hsame key cached Hlive) in Hkey. rewrite Hkey in Hkey'. injection Hkey' as <-. lia.
    + apply (Hsame key cached' Hlive') in Hkey'. rewrite Hkey in Hkey'. injection Hkey' as <-. lia.
    + simpl. split_and!; [done..|]. split; [done|]. simpl. by apply Hfresh.
  - destruct (Z.ltb_spec (now - timestamp cached) (windowMs this)) as [Hlive|Hdead].
    + apply (Hsame key cached Hlive) in Hkey. by rewrite Hkey in Hkey'.
    + simpl. split_and!; [done..|]. split; [done|]. simpl. by apply Hfresh.
  - destruct (Z.ltb_spec (now - timestamp cached') (windowMs this)) as [Hlive'|Hdead'].
    + apply (Hsame key cached' Hlive') in Hkey'. by rewrite Hkey in Hkey'.
    + simpl. split_and!; [done..|]. split; [done|]. simpl. by apply Hfresh.
  - simpl. split_and!; [done..|]. split; [done|]. simpl. by apply Hfresh.
Qed.

Lemma run_ops_without_sweeps (ops : list DedupOp) :
  forall t this this' world,
    times_from t ops ->
    same_live_entries t this this' ->
    (run_ops ops this world).1.1 = (run_ops (calls_only ops) this' world).1.1 /\
    (run_ops ops this world).2 = (run_ops (calls_only ops) this' world).2.
Proof.
  induction ops as [|[method path query body factory now|now] ops IH];
    intros t this this' world Htimes Hsame; simpl in *; [done| |].
  - destruct Htimes as [Hle Htimes].
    apply (same_live_entries_later t now) in Hsame; [|done].
    destruct (same_live_entries_getOrCreate method path query body factory now this this' world
                Hsame) as (Hp & Hw & Hsame').
    destruct (getOrCreate _ _ _ _ _ now this world) as [[p this1] world1].
    destruct (getOrCreate _ _ _ _ _ now this' world) as [[p' this1'] world1'].
    simpl in *. subst p' world1'.
    destruct (IH now this1 this1' world1 Htimes Hsame') as [Hps Hws].
    destruct (run_ops ops this1 world1) as [[ps this2] world2].
    destruct (run_ops (calls_only ops) this1' world1) as [[ps' this2'] world2'].
    simpl in *. by subst.
  - destruct Htimes as [Hle Htimes].
    apply (IH now); [done|].
    apply same_live_entries_cleanup. by apply (same_live_entries_later t now).
Qed.

Lemma cache_in_world_getOrCreate method path query body factory now this world :
  cache_in_world this world ->
  let call := getOrCreate method path query body factory now this world in
  cache_in_world call.1.2 call.2 /\
  (call.1.1 < length call.2)%nat /\
  (call.2 = world \/ call.2 = world ++ [factory]) /\
  windowMs call.1.2 = windowMs this /\
  (forall key, key <> generateKey method path query body ->
               cache call.1.2 !! key = cache this !! key).
Proof.
  intros Hwf. cbv zeta. unfold getOrCreate.
  assert (Hmiss : forall entry_time,
    let this1 := {| cache := <[generateKey method path query body :=
                               {| promise := length world; timestamp := entry_time |}]>
                               (cache this);
                    cleanupInterval := cleanupInterval this;
                    windowMs := windowMs this |} in
    cache_in_world this1 (world ++ [factory])).
  { intros entry_time this1 key cached. unfold this1. simpl. rewrite length_app. simpl.
    destruct (decide (generateKey method path query body = key)) as [<-|Hne].
    - rewrite lookup_insert_eq. intros [= <-]. simpl. lia.
    - rewrite lookup_insert_ne by done. intros Hkey. specialize (Hwf key cached Hkey). lia. }
  destruct (cache this !! generateKey method path query body) as [cached|] eqn:Hkey.
  - destruct (now - timestamp cached <? windowMs this); simpl.
    + split_and!; [done|by apply (Hwf _ _ Hkey)|by left|done|done].
    + split_and!; [apply Hmiss|rewrite length_app; simpl; lia|by right|done|].
      intros key Hne. by rewrite lookup_insert_ne.
  - simpl. split_and!; [apply Hmiss|rewrite length_app; simpl; lia|by right|done|].
    intros key Hne. by rewrite lookup_insert_ne.
Qed.

Lemma cache_in_world_cleanup now this world :
  cache_in_world this world -> cache_in_world (cleanup now this) world.
Proof.
  intros Hwf key cached. simpl. rewrite map_lookup_filter_Some. intros [Hkey _].
  by apply (Hwf key cached).
Qed.
End DeduplicationRunFacts.

Section DeduplicationRunProperties.
Context `{RT : Runtime} {F : Type}.
Implicit Types (this : RequestDeduplicator) (world : list F) (factory : F).

(** X5: as long as the clock does not go back, the periodic sweep is
    invisible to the callers: a sequence of calls and sweeps returns the same
    promises and invokes the same factories as the same calls without any
    sweep. *)
Theorem sweep_is_invisible (ops : list DedupOp) (t : Z) this world :
  times_from t ops ->
  (run_ops ops this world).1.1 = (run_ops (calls_only ops) this world).1.1 /\
  (run_ops ops this world).2 = (run_ops (calls_only ops) this world).2.
Proof.
  intros Htimes. apply (run_ops_without_sweeps ops t); [done|apply same_live_entries_refl].
Qed.

(** X6: through any sequence of calls and sweeps, whatever the requests, the
    factories and the times, every promise in the cache and every promise
    returned was made by a factory invocation of this world; each call returns
    one promise and invokes at most one factory, and the window never
    changes. *)
Theorem run_ops_invariants (ops : list DedupOp) this world :
  cache_in_world this world ->
  let run := run_ops ops this world in
  cache_in_world run.1.2 run.2 /\
  Forall (fun p => (p < length run.2)%nat) run.1.1 /\
  length run.1.1 = count_calls ops /\
  (exists invoked, run.2 = world ++ invoked /\ (length invoked <= count_calls ops)%nat) /\
  windowMs run.1.2 = windowMs this.
Proof.
  cbv zeta. revert this world.
  induction ops as [|[method path query body factory now|now] ops IH];
    intros this world Hwf; simpl.
  - split_and!; [done|constructor|done| |done]. exists []. by rewrite app_nil_r.
  - destruct (cache_in_world_getOrCreate method path query body factory now this world Hwf)
      as (Hwf1 & Hp & Hworld & Hwin & _).
    destruct (getOrCreate _ _ _ _ _ now this world) as [[p this1] world1]. simpl in *.
    destruct (IH this1 world1 Hwf1) as (Hwf2 & Hps & Hlen & (invoked & Hinv & Hcount) & Hwin2).
    destruct (run_ops ops this1 world1) as [[ps this2] world2]. simpl in *.
    split_and!; [done| |by rewrite Hlen| |by rewrite Hwin2].
    + constructor; [|done]. subst world2. rewrite length_app. lia.
    + destruct Hworld as [->| ->].
      * exists invoked. split; [done|lia].
      * exists (factory :: invoked). rewrite <- app_assoc in Hinv. split; [done|simpl; lia].
  - destruct (IH (cleanup now this) world (cache_in_world_cleanup now this world Hwf))
      as (Hwf2 & Hps & Hlen & Hinv & Hwin2).
    by split_and!.
Qed.

(** X7: the cache key does not determine the request.  An empty query
    object and a path that ends in the separator give the same key, and a
    body that is falsy ([undefined], [null], [false], [0], the empty string)
    leaves no trace in the key.  Whenever two requests have the same key, a
    call for the second that comes while the entry of the first is live gets
    the promise of the first and its own factory is not invoked. *)
Theorem generateKey_collisions method path query body :
  generateKey method path (Some ∅) body = generateKey method (path +:+ "|") None body /\
  (forall body', truthy body = false -> truthy body' = false ->
                 generateKey method path query body = generateKey method path query body') /\
  (forall method' path' query' body' (f f' : F) now now' this world,
     generateKey method' path' query' body' = generateKey method path query body ->
     no_live_entry (generateKey method path query body) now this ->
     now' - now < windowMs this ->
     let first := getOrCreate method path query body f now this world in
     let second := getOrCreate method' path' query' body' f' now' first.1.2 first.2 in
     second.1.1 = first.1.1 /\ second.2 = world ++ [f]).
Proof.
  split_and!.
  - unfold generateKey. rewrite map_to_list_empty. simpl.
    destruct (truthy body); [destruct (JSON_stringify body)|]; simpl;
      by rewrite ?string_app_assoc, ?string_app_empty_r.
  - intros body' Hb Hb'. unfold generateKey. by rewrite Hb, Hb'.
  - intros method' path' query' body' f f' now now' this world Hkey Hdead Hlive. cbv zeta.
    rewrite (getOrCreate_miss _ _ _ _ _ _ _ _ Hdead). simpl.
    erewrite getOrCreate_hit; [|simpl; rewrite Hkey; apply lookup_insert_eq|simpl; lia].
    by simpl.
Qed.
End DeduplicationRunProperties.

(** ** More on the request layer *)

Section FirstAttempt.
Context {T S : Type}.
Variable fn : S -> Settled T * S.
Variable config : option RetryConfig.
Variable getRetryAfter : option (JsValue -> option Z).

Lemma withRetry_first_resolved (s s1 : S) (v : T) :
  fn s = (Resolved v, s1) ->
  1 <= maxAttempts (merge_config config) ->
  withRetry fn config getRetryAfter s = (Some (Resolved v), s1, [EvAttempt 1 (Resolved v)]).
Proof.
  intros Hfn Hmax. unfold withRetry. simpl. rewrite Hfn.
  by destruct (Z.leb_spec 1 (maxAttempts (merge_config config))); [|lia].
Qed.

Lemma withRetry_first_fatal (s s1 : S) (e : JsValue) :
  fn s = (Rejected e, s1) ->
  1 <= maxAttempts (merge_config config) ->
  isRetryable (statusCodeOf e) (merge_config config) = false ->
  withRetry fn config getRetryAfter s = (Some (Rejected e), s1, [EvAttempt 1 (Rejected e)]).
Proof.
  intros Hfn Hmax Hfatal. unfold withRetry. simpl. rewrite Hfn, Hfatal.
  destruct (Z.leb_spec 1 (maxAttempts (merge_config config))); [|lia].
  by destruct (1 >=? maxAttempts (merge_config config)).
Qed.

Lemma withRetry_first_retried (s s1 : S) (e : JsValue) :
  fn s = (Rejected e, s1) ->
  2 <= maxAttempts (merge_config config) ->
  isRetryable (statusCodeOf e) (merge_config config) = true ->
  exists rest,
    (withRetry fn config getRetryAfter s).2
    = EvAttempt 1 (Rejected e)
        :: EvSleep (calculateDelay 1 (merge_config config)
                      (match getRetryAfter with Some g => g e | None => None end))
        :: rest.
Proof.
  intros Hfn Hmax Hretry. unfold withRetry. simpl. rewrite Hfn, Hretry.
  destruct (Z.leb_spec 1 (maxAttempts (merge_config config))); [|lia].
  destruct (Z.geb_spec 1 (maxAttempts (merge_config config))); [lia|].
  simpl. destruct (retry_loop _ _ _ _ _ _ _) as [[out s3] rest]. by exists rest.
Qed.
End FirstAttempt.

Section RequestLayerProperties.
Context `{RT : Runtime}.

Lemma createErrorFromResponse_instance (response : Response) :
  instanceof_StravaError (createErrorFromResponse response) = true /\
  statusCodeOf (createErrorFromResponse response) = Some (status response).
Proof.
  unfold createErrorFromResponse.
  repeat (match goal with |- context [if ?b then _ else _] =>
                            lazymatch b with
                            | context [status response] => destruct b
                            end
          end); done.
Qed.

(** X8: the error made for a response always is a [StravaError] that carries
    the status of the response, and its class tells the status: a
    [StravaAuthError] stands for 401 or 403, a [StravaNotFoundError] for 404,
    a [StravaValidationError] for 422, a [StravaRateLimitError] for 429, a
    [StravaServerError] for 500, 502, 503 or 504, and the plain [StravaError]
    for every other status.  Under the default configuration it is retryable
    exactly for 429, 500, 502, 503 and 504. *)
Theorem createErrorFromResponse_classes (response : Response) :
  let error := createErrorFromResponse response in
  let code := status response in
  instanceof_StravaError error = true /\
  statusCodeOf error = Some code /\
  (error_class error = Some ClsStravaAuthError <-> code = 401 \/ code = 403) /\
  (error_class error = Some ClsStravaNotFoundError <-> code = 404) /\
  (error_class error = Some ClsStravaValidationError <-> code = 422) /\
  (error_class error = Some ClsStravaRateLimitError <-> code = 429) /\
  (error_class error = Some ClsStravaServerError
   <-> code = 500 \/ code = 502 \/ code = 503 \/ code = 504) /\
  (isRetryable (statusCodeOf error) DEFAULT_RETRY_CONFIG = true
   <-> code = 429 \/ code = 500 \/ code = 502 \/ code = 503 \/ code = 504).
Proof.
  cbv zeta. destruct (createErrorFromResponse_instance response) as [Hinst Hcode].
  rewrite Hcode. split; [done|]. split; [done|]. clear Hinst Hcode.
  unfold createErrorFromResponse, isRetryable, includes, DEFAULT_RETRY_CONFIG. simpl.
  remember (status response) as code eqn:Hcode. clear Hcode.
  destruct (Z.eqb_spec code 401); [subst; simpl; split_and!; split; (done || lia || tauto)|].
  destruct (Z.eqb_spec code 403); [subst; simpl; split_and!; split; (done || lia || tauto)|].
  destruct (Z.eqb_spec code 404); [subst; simpl; split_and!; split; (done || lia || tauto)|].
  destruct (Z.eqb_spec code 422); [subst; simpl; split_and!; split; (done || lia || tauto)|].
  destruct (Z.eqb_spec code 429); [subst; simpl; split_and!; split; (done || lia || tauto)|].
  destruct (Z.eqb_spec code 500); [subst; simpl; split_and!; split; (done || lia || tauto)|].
  destruct (Z.eqb_spec code 502); [subst; simpl; split_and!; split; (done || lia || tauto)|].
  destruct (Z.eqb_spec code 503); [subst; simpl; split_and!; split; (done || lia || tauto)|].
  destruct (Z.eqb_spec code 504); [subst; simpl; split_and!; split; (done || lia || tauto)|].
  simpl. split_and!; split; (done || lia || tauto).
Qed.

Section MakeRequestProperties.
Context {S : Type}.
Variable fetch : S -> Settled Response * S.
Variable applyTransformations : JsValue -> JsValue.
Variable timeout : Z.
Variable rateLimiter : option (RateLimiter S).

Lemma rethrow_instance (error : JsValue) :
  instanceof_StravaError (rethrow timeout error) = true.
Proof.
  unfold rethrow. destruct (instanceof_StravaError error) eqn:Hinst; [done|].
  by destruct (_ && _).
Qed.

Lemma rethrow_other (cause : JsValue) :
  instanceof_StravaError cause = false ->
  statusCodeOf (rethrow timeout cause) = None /\
  exists message, rethrow timeout cause = StravaError message None cause.
Proof.
  intros Hinst. unfold rethrow. rewrite Hinst.
  destruct (_ && _); (split; [done|by eexists]).
Qed.

Lemma makeRequest_http_error (s s1 : S) (response : Response) :
  admission rateLimiter s = (Resolved tt, s1) ->
  (fetch s1).1 = Resolved response ->
  ok response = false ->
  (makeRequest fetch applyTransformations timeout rateLimiter s).1
  = Rejected (createErrorFromResponse response).
Proof.
  intros Hadmit Hfetch Hok. unfold makeRequest. rewrite Hadmit.
  destruct (fetch s1) as [fetched s2]. simpl in Hfetch. subst fetched.
  simpl. rewrite Hok. simpl.
  destruct (createErrorFromResponse_instance response) as [Hinst _].
  unfold rethrow. by rewrite Hinst.
Qed.

(** X9: what one attempt yields, once the rate limiter has admitted it.  A
    2xx response whose body parses resolves with the transformed body; a
    response outside 2xx rejects with the error made for that response,
    unchanged; and whatever goes wrong, the rejection is an instance of
    [StravaError]. *)
Theorem makeRequest_outcomes (s s1 : S) :
  admission rateLimiter s = (Resolved tt, s1) ->
  let attempt := (makeRequest fetch applyTransformations timeout rateLimiter s).1 in
  (forall response rawData,
     (fetch s1).1 = Resolved response -> ok response = true ->
     json response = Resolved rawData ->
     attempt = Resolved (applyTransformations rawData)) /\
  (forall response,
     (fetch s1).1 = Resolved response -> ok response = false ->
     attempt = Rejected (createErrorFromResponse response)) /\
  (forall e, attempt = Rejected e -> instanceof_StravaError e = true).
Proof.
  intros Hadmit. cbv zeta. unfold makeRequest. rewrite Hadmit.
  destruct (fetch s1) as [[response|cause] s2]; simpl.
  - destruct (ok response) eqn:Hok; simpl.
    + destruct (json response) as [rawData|cause] eqn:Hjson; simpl.
      * split_and!.
        -- intros r raw [= <-] _ Hraw. rewrite Hjson in Hraw. by injection Hraw as <-.
        -- intros r [= <-] Hbad. congruence.
        -- done.
      * split_and!.
        -- intros r raw [= <-] _ Hraw. congruence.
        -- intros r [= <-] Hbad. congruence.
        -- intros e [= <-]. apply rethrow_instance.
    + destruct (createErrorFromResponse_instance response) as [Hinst _].
      unfold rethrow. rewrite Hinst. split_and!.
      * intros r raw [= <-] Hgood. congruence.
      * by intros r [= <-] _.
      * by intros e [= <-].
  - split_and!; [done|done|]. intros e [= <-]. apply rethrow_instance.
Qed.

(** X10: a response outside 2xx whose status is not in the retryable set of
    the configuration ends [request] at the first attempt: one call of
    [fetch], no sleep, and the rejection is the error made for that
    response. *)
Theorem request_fatal_status (config : option RetryConfig) (s s1 : S) (response : Response) :
  admission rateLimiter s = (Resolved tt, s1) ->
  (fetch s1).1 = Resolved response ->
  ok response = false ->
  status response ∉ retryableStatusCodes (merge_config config) ->
  1 <= maxAttempts (merge_config config) ->
  let run := request fetch applyTransformations timeout rateLimiter config s in
  run.1.1 = Some (Rejected (createErrorFromResponse response)) /\
  run.2 = [EvAttempt 1 (Rejected (createErrorFromResponse response))].
Proof.
  intros Hadmit Hfetch Hok Hfatal Hmax. cbv zeta.
  pose proof (makeRequest_http_error s s1 response Hadmit Hfetch Hok) as Hhttp.
  destruct (makeRequest fetch applyTransformations timeout rateLimiter s) as [attempt s3] eqn:Hrun.
  simpl in Hhttp. subst attempt.
  unfold request.
  rewrite (withRetry_first_fatal _ config (Some retryAfterOf) s s3 _ Hrun Hmax); [done|].
  destruct (createErrorFromResponse_instance response) as [_ Hcode].
  by apply (not_retryable_status _ (status response)).
Qed.

(** X11: a failure of [fetch], or of reading the body of a 2xx response,
    that is not already a [StravaError] is wrapped into a plain [StravaError]
    without status code that holds the cause in its [response] field; the
    retry layer counts it as retryable under every configuration, so that
    with attempts left [request] sleeps for the computed backoff and tries
    again. *)
Theorem request_retries_failures_without_status (config : option RetryConfig) (s s1 : S)
    (cause : JsValue) :
  admission rateLimiter s = (Resolved tt, s1) ->
  ((fetch s1).1 = Rejected cause \/
   exists response,
     (fetch s1).1 = Resolved response /\ ok response = true /\ json response = Rejected cause) ->
  instanceof_StravaError cause = false ->
  exists message,
    (makeRequest fetch applyTransformations timeout rateLimiter s).1
    = Rejected (StravaError message None cause) /\
    (2 <= maxAttempts (merge_config config) ->
     exists rest,
       (request fetch applyTransformations timeout rateLimiter config s).2
       = EvAttempt 1 (Rejected (StravaError message None cause))
           :: EvSleep (calculateDelay 1 (merge_config config) None) :: rest).
Proof.
  intros Hadmit Hcause Hinst.
  destruct (rethrow_other cause Hinst) as [_ [message Hwrap]].
  exists message.
  assert (Hrun : (makeRequest fetch applyTransformations timeout rateLimiter s).1
                 = Rejected (StravaError message None cause)).
  { unfold makeRequest. rewrite Hadmit.
    destruct (fetch s1) as [fetched s2]. simpl in Hcause.
    destruct Hcause as [->|(response & -> & Hok & Hjson)]; simpl.
    - by rewrite Hwrap.
    - rewrite Hok, Hjson. simpl. by rewrite Hwrap. }
  split; [done|]. intros Hmax.
  destruct (makeRequest fetch applyTransformations timeout rateLimiter s) as [attempt s3] eqn:Hmk.
  simpl in Hrun. subst attempt.
  by apply (withRetry_first_retried _ config (Some retryAfterOf) s s3 _ Hmk Hmax).
Qed.

(** X12: a 429 response is answered by a [StravaRateLimitError] that holds
    what [parseInt] read from the [Retry-After] header.  When 429 is
    retryable and attempts are left, [request] sleeps
    [min(retryAfter * 1000, maxDelay)] if that is a number other than 0; if
    the header is missing or empty, or is read as 0 or as [NaN] (as a date
    is), it sleeps the computed backoff. *)
Theorem request_rate_limited (config : option RetryConfig) (s s1 : S) (response : Response) :
  admission rateLimiter s = (Resolved tt, s1) ->
  (fetch s1).1 = Resolved response ->
  status response = 429 ->
  429 ∈ retryableStatusCodes (merge_config config) ->
  2 <= maxAttempts (merge_config config) ->
  let retryAfter := parseInt <$> present (headers_get response "Retry-After") in
  let error := createErrorFromResponse response in
  error_class error = Some ClsStravaRateLimitError /\
  error_retryAfter error = retryAfter /\
  exists rest,
    (request fetch applyTransformations timeout rateLimiter config s).2
    = EvAttempt 1 (Rejected error)
        :: EvSleep (match retryAfter with
                    | Some (Num seconds) =>
                        if seconds =? 0 then calculateDelay 1 (merge_config config) None
                        else Z.min (seconds * 1000) (maxDelay (merge_config config))
                    | Some NaN | None => calculateDelay 1 (merge_config config) None
                    end) :: rest.
Proof.
  intros Hadmit Hfetch Hstatus Hin Hmax. cbv zeta.
  assert (Hok : ok response = false) by (unfold ok; by rewrite Hstatus).
  pose proof (makeRequest_http_error s s1 response Hadmit Hfetch Hok) as Hhttp.
  destruct (makeRequest fetch applyTransformations timeout rateLimiter s) as [attempt s3] eqn:Hrun.
  simpl in Hhttp. subst attempt.
  assert (Herr : createErrorFromResponse response
                 = StravaRateLimitError
                     (error_message (createErrorFromResponse response)) (Some 429)
                     (match json response with
                      | Resolved data => data
                      | Rejected _ => match text response with
                                      | Resolved t => JsString t
                                      | Rejected _ => JsUndefined
                                      end
                      end)
                     (parseInt <$> present (headers_get response "Retry-After"))
                     (shortTermLimit (extractRateLimitInfo (headers_get response)))
                     (shortTermUsage (extractRateLimitInfo (headers_get response))))
    by (unfold createErrorFromResponse; by rewrite Hstatus).
  split; [by rewrite Herr|]. split; [by rewrite Herr|].
  destruct (withRetry_first_retried _ config (Some retryAfterOf) s s3 _ Hrun Hmax) as [rest Hrest].
  { rewrite Herr. simpl. by apply includes_elem_of. }
  exists rest. unfold request. rewrite Hrest. do 2 f_equal.
  rewrite Herr. unfold retryAfterOf, StravaRateLimitError. simpl.
  destruct (parseInt <$> present (headers_get response "Retry-After")) as [[seconds|]|];
    [|done|done].
  by destruct (seconds =? 0).
Qed.

(** X13: when the rate limiter refuses the request, the attempt rejects with
    the limiter's error as it is, not wrapped into a [StravaError], and
    [fetch] is not called: the state is the one the limiter left.  If that
    error has no status code, as the built-in [Error] of the [throw]
    strategy, the retry layer takes it for retryable: with attempts left
    [request] sleeps and asks the limiter again. *)
Theorem request_admission_refused (config : option RetryConfig) (s s1 : S) (e : JsValue) :
  admission rateLimiter s = (Rejected e, s1) ->
  makeRequest fetch applyTransformations timeout rateLimiter s = (Rejected e, s1) /\
  (statusCodeOf e = None ->
   2 <= maxAttempts (merge_config config) ->
   exists rest,
     (request fetch applyTransformations timeout rateLimiter config s).2
     = EvAttempt 1 (Rejected e)
         :: EvSleep (calculateDelay 1 (merge_config config) (retryAfterOf e)) :: rest).
Proof.
  intros Hrefuse.
  assert (Hrun : makeRequest fetch applyTransformations timeout rateLimiter s = (Rejected e, s1))
    by (unfold makeRequest; by rewrite Hrefuse).
  split; [done|]. intros Hcode Hmax.
  destruct (withRetry_first_retried _ config (Some retryAfterOf) s s1 _ Hrun Hmax) as [rest Hrest].
  { unfold isRetryable. by rewrite Hcode. }
  exists rest. unfold request. by rewrite Hrest.
Qed.
End MakeRequestProperties.
End RequestLayerProperties.

(** ** The rate limiter *)

Lemma keep_recent_app (cutoff : Z) (l1 l2 : list Z) :
  keep_recent cutoff (l1 ++ l2) = keep_recent cutoff l1 ++ keep_recent cutoff l2.
Proof.
  induction l1 as [|t l1 IH]; simpl; [done|]. destruct (t >=? cutoff); simpl; by rewrite IH.
Qed.

Lemma keep_recent_keep_recent (cutoff cutoff' : Z) (l : list Z) :
  cutoff <= cutoff' ->
  keep_recent cutoff' (keep_recent cutoff l) = keep_recent cutoff' l.
Proof.
  intros Hle. induction l as [|t l IH]; simpl; [done|].
  destruct (Z.geb_spec t cutoff); simpl.
  - destruct (t >=? cutoff'); by rewrite IH.
  - destruct (Z.geb_spec t cutoff'); [lia|done].
Qed.

Lemma keep_recent_shift_expired (cutoff cutoff' : Z) (l : list Z) :
  cutoff <= cutoff' ->
  keep_recent cutoff' (shift_expired cutoff l) = keep_recent cutoff' l.
Proof.
  intros Hle. induction l as [|t l IH]; simpl; [done|].
  destruct (Z.ltb_spec t cutoff); [|done].
  destruct (Z.geb_spec t cutoff'); [lia|done].
Qed.

Lemma keep_recent_length (cutoff : Z) (l : list Z) :
  (length (keep_recent cutoff l) <= length l)%nat.
Proof. induction l as [|t l IH]; simpl; [done|]. destruct (t >=? cutoff); simpl; lia. Qed.

Section LimiterFacts.
Context `{RT : Runtime} {C : Type}.
Implicit Types (this : LimiterState C).

Lemma run_op_window (op : Limiter.LimiterOp) type this :
  Limiter.window_of type (Limiter.run_op op this) = Limiter.window_of type this.
Proof.
  destruct op as [headers now1 now2|now]; [|by destruct type].
  unfold Limiter.run_op, Limiter.updateFromHeaders.
  destruct (present (headers "X-RateLimit-Limit"));
    destruct (present (headers "X-RateLimit-Usage"));
    destruct (present (headers "X-RateLimit-Limit-Daily"));
    destruct (present (headers "X-RateLimit-Usage-Daily")); by destruct type.
Qed.

(** One operation keeps the requests of a window in step with what was
    recorded, as far as the entries still inside the window go. *)
Lemma run_op_recorded (op : Limiter.LimiterOp) type this (history : list Z) (t : Z) :
  t <= Limiter.op_start op -> Limiter.op_start op <= Limiter.op_end op ->
  (forall t', t <= t' ->
     keep_recent (t' - Limiter.window_of type this) (Limiter.requests_of type this)
     = keep_recent (t' - Limiter.window_of type this) history) ->
  forall t', Limiter.op_end op <= t' ->
    keep_recent (t' - Limiter.window_of type this)
                (Limiter.requests_of type (Limiter.run_op op this))
    = keep_recent (t' - Limiter.window_of type this)
                  (history ++ Limiter.recorded type [op]).
Proof.
  intros Hstart Hend Hinv t' Ht'.
  destruct op as [headers now1 now2|now]; simpl in *.
  - unfold Limiter.updateFromHeaders.
    destruct type; simpl;
      destruct (present (headers "X-RateLimit-Limit"));
      destruct (present (headers "X-RateLimit-Usage"));
      destruct (present (headers "X-RateLimit-Limit-Daily"));
      destruct (present (headers "X-RateLimit-Usage-Daily")); simpl;
      rewrite ?app_nil_r, ?keep_recent_app, ?keep_recent_shift_expired by lia;
      first [apply Hinv; lia | f_equal; apply Hinv; lia].
  - rewrite app_nil_r.
    destruct type; simpl; (rewrite keep_recent_keep_recent by lia); apply Hinv; lia.
Qed.

Lemma run_recorded (ops : list Limiter.LimiterOp) :
  forall type this (history : list Z) (t now : Z),
    Limiter.clock_from t (ops ++ [Limiter.OpRead now]) ->
    (forall t', t <= t' ->
       keep_recent (t' - Limiter.window_of type this) (Limiter.requests_of type this)
       = keep_recent (t' - Limiter.window_of type this) history) ->
    keep_recent (now - Limiter.window_of type this)
                (Limiter.requests_of type (Limiter.run ops this))
    = keep_recent (now - Limiter.window_of type this)
                  (history ++ Limiter.recorded type ops).
Proof.
  induction ops as [|op ops IH]; intros type this history t now Hclock Hinv.
  - simpl in *. rewrite app_nil_r. apply Hinv. lia.
  - destruct Hclock as (Hstart & Hend & Hclock).
    change (Limiter.run (op :: ops) this) with (Limiter.run ops (Limiter.run_op op this)).
    rewrite <- (run_op_window op type this).
    rewrite (IH type (Limiter.run_op op this) (history ++ Limiter.recorded type [op])
               (Limiter.op_end op) now Hclock).
    + rewrite <- app_assoc. do 2 f_equal.
      destruct op as [headers now1 now2|n]; simpl; [|done].
      destruct type; simpl.
      * by destruct (present (headers "X-RateLimit-Usage")).
      * by destruct (present (headers "X-RateLimit-Usage-Daily")).
    + intros t' Ht'. rewrite (run_op_window op type this).
      by apply (run_op_recorded op type this history t).
Qed.

(** Once [canMakeRequest] has said yes it says yes again at any time, as
    long as nothing else touches the limiter. *)
Lemma canMakeRequest_stays (now now' : Z) this this1 :
  Limiter.canMakeRequest now this = (true, this1) ->
  (Limiter.canMakeRequest now' this1).1 = true /\
  rl_queue (Limiter.canMakeRequest now' this1).2 = rl_queue this /\
  rl_queue this1 = rl_queue this.
Proof.
  unfold Limiter.canMakeRequest, Limiter.getRateLimitInfo. simpl.
  intros [= Hcan <-]. simpl. split; [|done].
  apply andb_true_iff in Hcan as [Hshort Hdaily].
  destruct (rl_shortTermLimit this) as [shortTermLimit|]; [|done].
  destruct (rl_dailyLimit this) as [dailyLimit|]; [|done].
  simpl in *. apply Z.ltb_lt in Hshort, Hdaily.
  apply andb_true_iff. split; apply Z.ltb_lt.
  - pose proof (keep_recent_length (now' - rl_shortTermWindow this)
                  (keep_recent (now - rl_shortTermWindow this) (rl_shortTermRequests this))).
    lia.
  - pose proof (keep_recent_length (now' - rl_dailyWindow this)
                  (keep_recent (now - rl_dailyWindow this) (rl_dailyRequests this))).
    lia.
Qed.

Lemma drain_cons (request : QueuedRequest C) (rest : list (QueuedRequest C))
    (clock : nat -> Z) (released : nat) this :
  Limiter.drain (request :: rest) clock released this
  = let check := Limiter.canMakeRequest (clock released) this in
    if check.1 then
      (caller request :: (Limiter.drain rest clock (Datatypes.S released) check.2).1,
       (Limiter.drain rest clock (Datatypes.S released) check.2).2)
    else ([], Limiter.set_queue (request :: rest) check.2).
Proof.
  cbv zeta. change (Limiter.drain (request :: rest) clock released this)
    with (let '(can, this1) := Limiter.canMakeRequest (clock released) this in
          if can then
            let '(callers, this2) := Limiter.drain rest clock (Datatypes.S released) this1 in
            (caller request :: callers, this2)
          else ([], Limiter.set_queue (request :: rest) this1)).
  destruct (Limiter.canMakeRequest (clock released) this) as [[|] this1]; [|reflexivity].
  cbn [fst snd]. destruct (Limiter.drain rest clock (Datatypes.S released) this1). reflexivity.
Qed.

Lemma drain_all (pending : list (QueuedRequest C)) (clock : nat -> Z) :
  forall (released : nat) this,
    (Limiter.canMakeRequest (clock released) this).1 = true ->
    (Limiter.drain pending clock released this).1 = map caller pending /\
    rl_queue (Limiter.drain pending clock released this).2 = [].
Proof.
  induction pending as [|request rest IH]; intros released this Hcan; [done|].
  rewrite drain_cons. cbv zeta. rewrite Hcan.
  destruct (Limiter.canMakeRequest (clock released) this) as [can this1] eqn:Hfirst.
  cbn [fst snd] in *. subst can.
  destruct (canMakeRequest_stays _ (clock (Datatypes.S released)) _ _ Hfirst) as (Hnext & _ & _).
  destruct (IH (Datatypes.S released) this1 Hnext) as [Hall Hempty].
  by rewrite Hall.
Qed.
Lemma run_window (ops : list Limiter.LimiterOp) type :
  forall this, Limiter.window_of type (Limiter.run ops this) = Limiter.window_of type this.
Proof.
  induction ops as [|op ops IH]; intros this; [done|].
  change (Limiter.run (op :: ops) this) with (Limiter.run ops (Limiter.run_op op this)).
  by rewrite IH, run_op_window.
Qed.


(** X14: lazy purging is exact.  As long as the clock does not go back, the
    usage that is read for a window at time [now] is the number of requests
    recorded within the last window length: the requests the limiter held
    at the start and those the responses in between recorded, whatever was
    purged on the way by [recordRequest] and by earlier readings. *)
Theorem limiter_usage_is_exact (ops : list Limiter.LimiterOp) (type : WindowType)
    this (t now : Z) :
  Limiter.clock_from t (ops ++ [Limiter.OpRead now]) ->
  Limiter.usage_of type (Limiter.getRateLimitInfo now (Limiter.run ops this)).1
  = Some (Num (Z.of_nat (length (keep_recent (now - Limiter.window_of type this)
                                   (Limiter.requests_of type this
                                    ++ Limiter.recorded type ops))))).
Proof.
  intros Hclock.
  pose proof (run_recorded ops type this (Limiter.requests_of type this) t now Hclock
                (fun _ _ => eq_refl)) as Hexact.
  rewrite <- Hexact, <- (run_window ops type this).
  by destruct type.
Qed.

(** X15: the usage figures the server reports are not used.  Two sets of
    headers that carry the same limits and agree on which usage headers are
    there lead to the same state, whatever figures they report; and one
    response adds at most one request to each window. *)
Theorem updateFromHeaders_ignores_reported_usage (headers headers' : string -> option string)
    (now1 now2 : Z) this :
  headers "X-RateLimit-Limit" = headers' "X-RateLimit-Limit" ->
  headers "X-RateLimit-Limit-Daily" = headers' "X-RateLimit-Limit-Daily" ->
  (is_Some (present (headers "X-RateLimit-Usage"))
   <-> is_Some (present (headers' "X-RateLimit-Usage"))) ->
  (is_Some (present (headers "X-RateLimit-Usage-Daily"))
   <-> is_Some (present (headers' "X-RateLimit-Usage-Daily"))) ->
  Limiter.updateFromHeaders headers now1 now2 this
  = Limiter.updateFromHeaders headers' now1 now2 this /\
  forall type,
    (length (Limiter.requests_of type (Limiter.updateFromHeaders headers now1 now2 this))
     <= Datatypes.S (length (Limiter.requests_of type this)))%nat.
Proof.
  intros Hshort Hdaily Hus Hud. split.
  - unfold Limiter.updateFromHeaders. rewrite <- Hshort, <- Hdaily.
    destruct (present (headers "X-RateLimit-Usage")) as [u|];
      destruct (present (headers' "X-RateLimit-Usage")) as [u'|];
      try (by destruct Hus as [Hus1 Hus2];
           first [destruct (Hus1 (mk_is_Some _ _ eq_refl)) as [? [=]]
                 |destruct (Hus2 (mk_is_Some _ _ eq_refl)) as [? [=]]]);
      destruct (present (headers "X-RateLimit-Usage-Daily")) as [d|];
      destruct (present (headers' "X-RateLimit-Usage-Daily")) as [d'|];
      try (by destruct Hud as [Hud1 Hud2];
           first [destruct (Hud1 (mk_is_Some _ _ eq_refl)) as [? [=]]
                 |destruct (Hud2 (mk_is_Some _ _ eq_refl)) as [? [=]]]);
      reflexivity.
  - assert (Hshift : forall cutoff l, (length (shift_expired cutoff l) <= length l)%nat).
    { intros cutoff l. induction l as [|x l IH]; simpl; [done|].
      destruct (x <? cutoff); simpl; lia. }
    intros type. unfold Limiter.updateFromHeaders.
    destruct type;
      destruct (present (headers "X-RateLimit-Limit"));
      destruct (present (headers "X-RateLimit-Usage"));
      destruct (present (headers "X-RateLimit-Limit-Daily"));
      destruct (present (headers "X-RateLimit-Usage-Daily")); simpl;
      rewrite ?length_app; simpl;
      try match goal with
          | |- context [shift_expired ?c ?l] => pose proof (Hshift c l)
          end; lia.
Qed.

(** X16: [processQueue] releases all or nothing.  If the limiter has
    capacity at the first check, every queued caller is released, in the
    order of the queue, and the queue is left empty, for releasing a caller
    records no request; if it has none, nobody is released and the queue stays
    as it is. *)
Theorem processQueue_all_or_nothing (clock : nat -> Z) this :
  let run := Limiter.processQueue clock this in
  if (Limiter.canMakeRequest (clock 0%nat) this).1
  then run.1 = map caller (rl_queue this) /\ rl_queue run.2 = []
  else run.1 = [] /\ rl_queue run.2 = rl_queue this.
Proof.
  cbv zeta. unfold Limiter.processQueue.
  destruct (Limiter.canMakeRequest (clock 0%nat) this) as [can this1] eqn:Hcan.
  cbn [fst snd]. destruct can.
  - apply drain_all. by rewrite Hcan.
  - destruct (rl_queue this) as [|request rest] eqn:Hqueue; [done|].
    rewrite drain_cons. cbv zeta. by rewrite Hcan.
Qed.

End LimiterFacts.

(** ** Scopes *)

Lemma string_app_cons (c : Ascii.ascii) (s1 s2 : string) :
  String c s1 +:+ s2 = String c (s1 +:+ s2).
Proof. reflexivity. Qed.

Lemma split_comma_not_nil (s : string) : split_comma s <> [].
Proof.
  destruct s as [|c rest]; simpl; [done|].
  destruct (Ascii.eqb c comma); [done|]. by destruct (split_comma rest).
Qed.

Lemma split_comma_one (p : string) : has_comma p = false -> split_comma p = [p].
Proof.
  induction p as [|c p IH]; simpl; [done|].
  destruct (Ascii.eqb c comma); simpl; [done|].
  intros Hp. by rewrite (IH Hp).
Qed.

Lemma split_comma_app (p rest : string) :
  has_comma p = false ->
  split_comma (p +:+ String comma rest) = p :: split_comma rest.
Proof.
  induction p as [|c p IH]; intros Hp.
  - reflexivity.
  - rewrite string_app_cons. simpl in *.
    destruct (Ascii.eqb c comma); simpl in Hp; [done|].
    by rewrite (IH Hp).
Qed.

Lemma split_comma_join (scopes : list string) :
  scopes <> [] ->
  Forall (fun p => has_comma p = false) scopes ->
  split_comma (join "," scopes) = scopes.
Proof.
  induction scopes as [|p scopes IH]; [done|]. intros _ Hall.
  apply Forall_cons in Hall as [Hp Hall].
  destruct scopes as [|q scopes]; [by apply split_comma_one|].
  change (join "," (p :: q :: scopes)) with (p +:+ String comma (join "," (q :: scopes))).
  rewrite (split_comma_app _ _ Hp). f_equal. by apply IH.
Qed.

Lemma split_comma_parts (s : string) :
  Forall (fun p => has_comma p = false) (split_comma s).
Proof.
  induction s as [|c s IH]; simpl; [by repeat constructor|].
  destruct (Ascii.eqb c comma) eqn:Hc; [by constructor|].
  destruct (split_comma s) as [|p ps]; [repeat constructor; simpl; by rewrite Hc|].
  apply Forall_cons in IH as [Hp Hps]. constructor; [|done]. simpl. by rewrite Hc.
Qed.

Lemma trim_start_has_comma (s : string) :
  has_comma s = false -> has_comma (trim_start s) = false.
Proof.
  induction s as [|c s IH]; [done|]. intros Hs. simpl.
  destruct (is_white_space c); [|done].
  simpl in Hs. apply orb_false_iff in Hs as [_ Hs]. by apply IH.
Qed.

Lemma trim_end_has_comma (s : string) :
  has_comma s = false -> has_comma (trim_end s) = false.
Proof.
  induction s as [|c s IH]; [done|]. intros Hs. simpl in *.
  apply orb_false_iff in Hs as [Hc Hs]. specialize (IH Hs).
  destruct (trim_end s) as [|d kept].
  - destruct (is_white_space c); [done|]. simpl. by rewrite Hc.
  - simpl in *. by rewrite Hc.
Qed.

Lemma trim_end_trim_end (s : string) : trim_end (trim_end s) = trim_end s.
Proof.
  induction s as [|c s IH]; [done|]. simpl.
  destruct (trim_end s) as [|d kept] eqn:Hkept.
  - destruct (is_white_space c) eqn:Hc; [done|]. simpl. by rewrite Hc.
  - change (trim_end (String c (String d kept)))
      with (match trim_end (String d kept) with
            | EmptyString => if is_white_space c then EmptyString else String c EmptyString
            | kept' => String c kept'
            end).
    by rewrite IH.
Qed.

Lemma trim_start_trim_end (s : string) :
  trim_start s = s -> trim_start (trim_end s) = trim_end s.
Proof.
  destruct s as [|c s]; [done|]. simpl.
  destruct (is_white_space c) eqn:Hc.
  - intros Hs. exfalso.
    assert (Hlen : forall r, (String.length (trim_start r) <= String.length r)%nat).
    { induction r as [|d r IHr]; simpl; [done|]. destruct (is_white_space d); simpl; lia. }
    pose proof (Hlen s) as Hle. rewrite Hs in Hle. simpl in Hle. lia.
  - intros _. destruct (trim_end s); simpl; by rewrite Hc.
Qed.

Lemma trim_start_trim_start (s : string) : trim_start (trim_start s) = trim_start s.
Proof.
  induction s as [|c s IH]; [done|]. simpl.
  destruct (is_white_space c) eqn:Hc; [done|]. simpl. by rewrite Hc.
Qed.

Lemma trim_trim (s : string) : trim (trim s) = trim s.
Proof.
  unfold trim.
  rewrite (trim_start_trim_end (trim_start s) (trim_start_trim_start s)).
  apply trim_end_trim_end.
Qed.

Lemma parseScopes_one_scope (scopeString : string) :
  Forall one_scope (parseScopes scopeString).
Proof.
  unfold parseScopes.
  pose proof (split_comma_parts scopeString) as Hparts.
  induction (split_comma scopeString) as [|p ps IH]; simpl; [constructor|].
  apply Forall_cons in Hparts as [Hp Hps].
  destruct (String.eqb_spec (trim p) EmptyString) as [Hempty|Hfull]; simpl; [by apply IH|].
  constructor; [|by apply IH].
  split_and!; [done| |apply trim_trim].
  unfold trim. by apply trim_end_has_comma, trim_start_has_comma.
Qed.

Lemma format_then_parse_one_scope (scopes : list string) :
  Forall one_scope scopes -> parseScopes (formatScopes scopes) = scopes.
Proof.
  intros Hall. unfold parseScopes, formatScopes.
  destruct scopes as [|p scopes]; [done|].
  rewrite split_comma_join; [|done|].
  - induction Hall as [|q qs (Hfull & _ & Htrim) _ IH]; [done|].
    simpl. rewrite Htrim.
    destruct (String.eqb_spec q EmptyString) as [Hempty|_]; [done|]. simpl. by rewrite IH.
  - eapply Forall_impl; [exact Hall|]. by intros q (_ & Hq & _).
Qed.

Lemma valid_scope_one_scope (scope : string) :
  existsb (String.eqb scope) StravaScope_values = true -> one_scope scope.
Proof.
  intros Hvalid. apply existsb_exists in Hvalid as (v & Hin & Heq).
  apply String.eqb_eq in Heq. subst v.
  unfold StravaScope_values in Hin. simpl in Hin.
  repeat (destruct Hin as [<-|Hin]; [by split_and!; [ |vm_compute|vm_compute]|]).
  done.
Qed.

(** X18: formatting a list of valid scopes and parsing it again gives the
    list back. *)
Theorem parseScopes_formatScopes (scopes : list string) :
  validateScopes scopes = true ->
  parseScopes (formatScopes scopes) = scopes.
Proof.
  intros Hvalid. apply format_then_parse_one_scope.
  unfold validateScopes in Hvalid. cbv zeta in Hvalid.
  rewrite forallb_forall in Hvalid. apply Forall_forall.
  intros scope Hin. apply valid_scope_one_scope, Hvalid. by apply list_elem_of_In.
Qed.

(** X19: whatever string is parsed, the entries of the result are not
    empty, hold no comma and have no white space at either end, and the
    result is stable: formatted and parsed again, it comes back as it
    is. *)
Theorem parseScopes_normal_form (scopeString : string) :
  Forall one_scope (parseScopes scopeString) /\
  parseScopes (formatScopes (parseScopes scopeString)) = parseScopes scopeString.
Proof.
  split; [apply parseScopes_one_scope|].
  apply format_then_parse_one_scope, parseScopes_one_scope.
Qed.

(** ** The token manager *)

Section OAuthFlowProperties.
Context `{RT : Runtime}.
Variable post_token : list (string * string) -> Settled TokenHttpResponse.

Lemma refreshAccessToken_scope (refreshToken clientId clientSecret : string) (token : TokenData) :
  refreshAccessToken post_token refreshToken clientId clientSecret = Resolved token ->
  scope token = None.
Proof.
  unfold refreshAccessToken. intros Hrefresh.
  repeat case_match; try discriminate. by injection Hrefresh as <-.
Qed.

Lemma exchangeCode_scope (code clientId clientSecret : string) (redirectUri : option string)
    (token : TokenData) :
  exchangeCode post_token code clientId clientSecret redirectUri = Resolved token ->
  scope token = None.
Proof.
  unfold exchangeCode. intros Hexchange.
  repeat case_match; try discriminate; by injection Hexchange as <-.
Qed.

Section AnyStore.
Context {St : Type} `{TS : TokenStore St}.
Variable this : OAuthManager.

(** X20: what [getToken] never does.  It hands out a stored token as it is
    only when that token is more than 300 seconds from expiry, and a
    refreshed token only after one exchange and after writing that token to
    the store; without a stored token it does nothing but read; and it
    clears the store only on the way to a rejection, as its last step. *)
Theorem getToken_discipline (now_ms : Z) (st : St) :
  let run := getToken post_token this now_ms st in
  (forall token,
     run.1.1 = Resolved (Some token) ->
     (run.2 = [EvStoreGet] /\ isTokenExpired token 300 now_ms = false) \/
     (exists old,
        isTokenExpired old 300 now_ms = true /\
        scope token = scope old /\
        run.2 = [EvStoreGet;
                 EvRefreshExchange (refreshToken old) (clientId this) (clientSecret this);
                 EvStoreSet token])) /\
  (run.1.1 = Resolved None -> run.2 = [EvStoreGet]) /\
  (forall e,
     run.1.1 = Rejected e ->
     run.2 = [EvStoreGet] \/
     exists exchange rest,
       run.2 = EvStoreGet :: exchange :: rest /\ last rest = Some EvStoreClear) /\
  (EvStoreClear ∈ run.2 -> exists e, run.1.1 = Rejected e).
Proof.
  cbv zeta. unfold getToken.
  destruct (store_get st) as [[[token|]|e] st1]; simpl.
  2:{ split_and!; [done|done|by left|]. rewrite !elem_of_cons, elem_of_nil. intuition discriminate. }
  2:{ split_and!; [done|done|by left|]. rewrite !elem_of_cons, elem_of_nil. intuition discriminate. }
  destruct (isTokenExpired token 300 now_ms) eqn:Hexp; simpl.
  2:{ split_and!; [|done|done|].
      - intros t [= <-]. by left.
      - rewrite !elem_of_cons, elem_of_nil. intuition discriminate. }
  destruct (refreshAccessToken post_token (refreshToken token) (clientId this) (clientSecret this))
    as [newToken|e]; simpl.
  - match goal with
    | |- context [store_set ?t st1] => set (refreshed := t)
    end.
    destruct (store_set refreshed st1) as [[[]|e] st2]; simpl.
    + split_and!; [|done|done|].
      * intros t [= <-]. right. by exists token.
      * rewrite !elem_of_cons, elem_of_nil. intuition discriminate.
    + destruct (store_clear st2) as [[[]|e'] st3]; simpl;
        (split_and!; [done|done| |by eexists]);
        intros ? _; right; by do 2 eexists.
  - destruct (store_clear st1) as [[[]|e'] st3]; simpl;
      (split_and!; [done|done| |by eexists]);
      intros ? _; right; by do 2 eexists.
Qed.

(** X21: failures of the store during a refresh.  When the write of the
    refreshed token fails, [getToken] clears the store and rejects with the
    error of the write; and whenever the clearing itself fails, after a
    failed exchange or a failed write, the error of the clearing is raised
    in place of the first one. *)
Theorem getToken_store_failures (now_ms : Z) (st st1 st2 : St) (token : TokenData) :
  store_get st = (Resolved (Some token), st1) ->
  isTokenExpired token 300 now_ms = true ->
  let refresh :=
    refreshAccessToken post_token (refreshToken token) (clientId this) (clientSecret this) in
  let run := getToken post_token this now_ms st in
  (forall newToken e,
     refresh = Resolved newToken ->
     (forall t, store_set t st1 = (Rejected e, st2)) ->
     run.1 = (match (store_clear st2).1 with
              | Resolved _ => Rejected e
              | Rejected e' => Rejected e'
              end, (store_clear st2).2) /\
     last run.2 = Some EvStoreClear) /\
  (forall e e',
     refresh = Rejected e ->
     store_clear st1 = (Rejected e', st2) ->
     run.1 = (Rejected e', st2)).
Proof.
  intros Hget Hexp. cbv zeta. unfold getToken. rewrite Hget, Hexp. split.
  - intros newToken e -> Hset. rewrite Hset.
    by destruct (store_clear st2) as [[[]|e'] st3].
  - intros e e' -> Hclear. by rewrite Hclear.
Qed.
End AnyStore.

Section InMemory.
Variable this : OAuthManager.

Lemma getScopes_scope (token token' : TokenData) :
  scope token' = scope token ->
  (Manager.getScopes (Some token')).1 = (Manager.getScopes (Some token)).1.
Proof.
  unfold Manager.getScopes. simpl. intros ->.
  destruct (scope token) as [granted|]; [|done]. by destruct (String.eqb granted EmptyString).
Qed.

(** X22: with the in-memory store, a token that [getToken] hands out is the
    token the store holds afterwards, with the scopes that were there before;
    and as long as that token is more than 300 seconds from expiry, the next
    call returns it again without an exchange. *)
Theorem getToken_settles (now_ms : Z) (st st' : option TokenData) (token : TokenData)
    (trace : list AuthEvent) :
  getToken post_token this now_ms st = (Resolved (Some token), st', trace) ->
  st' = Some token /\
  (Manager.getScopes st').1 = (Manager.getScopes st).1 /\
  forall now_ms',
    isTokenExpired token 300 now_ms' = false ->
    getToken post_token this now_ms' st' = (Resolved (Some token), st', [EvStoreGet]).
Proof.
  unfold getToken. simpl. destruct st as [old|]; [|done].
  destruct (isTokenExpired old 300 now_ms) eqn:Hexp.
  - destruct (refreshAccessToken post_token (refreshToken old) (clientId this) (clientSecret this))
      as [newToken|e]; simpl; [|done].
    intros [= <- <- _]. split_and!; [done|by apply getScopes_scope|].
    intros now_ms' Hfresh. unfold isTokenExpired in *. simpl in *. by rewrite Hfresh.
  - intros [= <- <- _]. split_and!; [done|done|].
    intros now_ms' Hfresh. by rewrite Hfresh.
Qed.

(** X23: [authenticate] with the in-memory store.  When the exchange of the
    code succeeds, the token is stored and returned; it carries no scope, so
    that [getScopes] answers with the empty list afterwards; and while it is
    more than 300 seconds from expiry [getToken] returns it as it is.  When
    the exchange fails, the store is left as it was. *)
Theorem authenticate_outcomes (code : string) (redirectUri : option string)
    (st : option TokenData) :
  match exchangeCode post_token code (clientId this) (clientSecret this) redirectUri with
  | Resolved token =>
      Manager.authenticate post_token this code redirectUri st = (Resolved token, Some token) /\
      Manager.getScopes (Some token) = (Resolved [], Some token) /\
      forall now_ms,
        isTokenExpired token 300 now_ms = false ->
        getToken post_token this now_ms (Some token)
        = (Resolved (Some token), Some token, [EvStoreGet])
  | Rejected e =>
      Manager.authenticate post_token this code redirectUri st = (Rejected e, st)
  end.
Proof.
  unfold Manager.authenticate.
  destruct (exchangeCode post_token code (clientId this) (clientSecret this) redirectUri)
    as [token|e] eqn:Hexchange; [|done].
  split_and!; [done| |].
  - unfold Manager.getScopes. simpl. by rewrite (exchangeCode_scope _ _ _ _ _ Hexchange).
  - intros now_ms Hfresh. unfold getToken. simpl. by rewrite Hfresh.
Qed.

(** X24: the refresh on demand with the in-memory store.  When it fails,
    for want of a stored token or because the exchange fails, the store is
    left as it was: a stored token stays, where [getToken] would have
    cleared the store.  When it succeeds, the store holds the token that is
    returned, with the scopes that were there before. *)
Theorem refreshToken_on_demand (st : option TokenData) :
  let run := Manager.refreshToken post_token this st in
  (forall e, run.1 = Rejected e ->
     run.2 = st /\
     (st = None -> e = StravaAuthError "No token available to refresh" None JsUndefined) /\
     (forall old, st = Some old ->
        refreshAccessToken post_token (refreshToken old) (clientId this) (clientSecret this)
        = Rejected e)) /\
  (forall token, run.1 = Resolved token ->
     run.2 = Some token /\
     (Manager.getScopes run.2).1 = (Manager.getScopes st).1).
Proof.
  cbv zeta. unfold Manager.refreshToken. simpl. destruct st as [old|]; simpl.
  - destruct (refreshAccessToken post_token (refreshToken old) (clientId this) (clientSecret this))
      as [newToken|e0] eqn:Hrefresh; simpl.
    + split; [done|]. intros token [= <-]. split; [done|]. by apply getScopes_scope.
    + split; [|done]. intros e [= <-]. split_and!; [done|done|]. by intros ? [= <-].
  - split; [|done]. by intros e [= <-].
Qed.
End InMemory.
End OAuthFlowProperties.

(** ** Pagination *)

Section PaginationProperties.
Context {T S : Type}.
Variable fetchPage : Z -> Z -> S -> Settled (list T) * S.

Lemma iterate_listAll_loop (fuel : nat) :
  forall (this : PaginatedIterator T) (s : S),
    hasMore this = true ->
    0 < perPage this ->
    let gen := Pagination.listAll_loop fetchPage fuel (perPage this) (currentPage this) s in
    let loop := Pagination.iterate fetchPage (Datatypes.S fuel) this s in
    Pagination.ending gen.1 <> Running ->
    loop.1.1 = gen.1 /\ loop.2 = gen.2 /\
    (Pagination.ending gen.1 = Returned -> Pagination.hasMorePages loop.1.2 = false).
Proof.
  induction fuel as [|fuel IH]; intros this s Hmore Hper; cbv zeta; [done|].
  change (Pagination.iterate fetchPage (Datatypes.S (Datatypes.S fuel)) this s)
    with (let fetched := if hasMore this then 1%nat else 0%nat in
          match Pagination.next fetchPage this s with
          | (Rejected e, this1, s1) =>
              ({| Pagination.items_of := []; Pagination.ending := Threw e;
                  Pagination.fetches := fetched |}, this1, s1)
          | (Resolved false, this1, s1) =>
              ({| Pagination.items_of := []; Pagination.ending := Returned;
                  Pagination.fetches := fetched |}, this1, s1)
          | (Resolved true, this1, s1) =>
              let '(run, this2, s2) :=
                Pagination.iterate fetchPage (Datatypes.S fuel) this1 s1 in
              ({| Pagination.items_of := Pagination.current this1 ++ Pagination.items_of run;
                  Pagination.ending := Pagination.ending run;
                  Pagination.fetches := (fetched + Pagination.fetches run)%nat |},
               this2, s2)
          end).
  cbv zeta. unfold Pagination.next. rewrite Hmore.
  change (Pagination.listAll_loop fetchPage (Datatypes.S fuel) (perPage this) (currentPage this) s)
    with (match fetchPage (currentPage this) (perPage this) s with
          | (Rejected e, s1) =>
              ({| Pagination.items_of := []; Pagination.ending := Threw e;
                  Pagination.fetches := 1 |}, s1)
          | (Resolved items, s1) =>
              if Z.of_nat (length items) <? perPage this
              then ({| Pagination.items_of := items; Pagination.ending := Returned;
                       Pagination.fetches := 1 |}, s1)
              else
                let '(run, s2) :=
                  Pagination.listAll_loop fetchPage fuel (perPage this) (currentPage this + 1) s1 in
                ({| Pagination.items_of := items ++ Pagination.items_of run;
                    Pagination.ending := Pagination.ending run;
                    Pagination.fetches := Datatypes.S (Pagination.fetches run) |}, s2)
          end).
  simpl negb. cbv iota.
  destruct (fetchPage (currentPage this) (perPage this) s) as [[items|e] s1]; [|done].
  destruct (Z.ltb_spec (Z.of_nat (length items)) (perPage this)) as [Hshort|Hfull].
  - destruct (Z.ltb_spec 0 (Z.of_nat (length items))) as [Hsome|Hnone].
    + unfold Pagination.iterate, Pagination.next. simpl. intros _.
      by rewrite app_nil_r.
    + destruct items; [|simpl in Hnone; lia]. by intros _.
  - destruct (Z.ltb_spec 0 (Z.of_nat (length items))) as [Hsome|Hnone]; [|lia].
    set (this1 := {| currentPage := currentPage this + 1;
                     currentItems := items;
                     hasMore := true;
                     perPage := perPage this |}).
    specialize (IH this1 s1 eq_refl Hper). cbv zeta in IH.
    change (perPage this1) with (perPage this) in IH.
    change (currentPage this1) with (currentPage this + 1) in IH.
    destruct (Pagination.listAll_loop fetchPage fuel (perPage this) (currentPage this + 1) s1)
      as [gen s2].
    destruct (Pagination.iterate fetchPage (Datatypes.S fuel) this1 s1) as [[loop this2] s3].
    simpl in *. intros Hending.
    destruct (IH Hending) as (-> & -> & Hlast). by split_and!.
Qed.

(** X25: the two ways of paging agree.  For a positive page size, a loop
    that calls [next] until it answers [false] and takes [current] after each
    [true] hands out the items [listAll] yields, ends as [listAll] ends, and
    calls [fetchPage] as often, leaving the server in the same state; when
    it returns, the iterator reports no more pages. *)
Theorem iterate_agrees_with_listAll (fuel : nat) (perPage : option Z) (s : S) :
  0 < default 30 perPage ->
  let gen := Pagination.listAll fetchPage fuel perPage s in
  let loop := Pagination.iterate fetchPage (Datatypes.S fuel) (Pagination.new perPage) s in
  Pagination.ending gen.1 <> Running ->
  loop.1.1 = gen.1 /\ loop.2 = gen.2 /\
  (Pagination.ending gen.1 = Returned -> Pagination.hasMorePages loop.1.2 = false).
Proof.
  intros Hper. cbv zeta. unfold Pagination.listAll.
  by apply (iterate_listAll_loop fuel (Pagination.new perPage) s).
Qed.

Lemma listAll_loop_data (data : list T) (perPage : Z) (fuel : nat) :
  0 < perPage ->
  (forall page s,
     1 <= page -> (fetchPage page perPage s).1 = Resolved (Pagination.page_of data perPage page)) ->
  forall page s,
    1 <= page ->
    let rest := drop (Z.to_nat ((page - 1) * perPage)) data in
    Z.of_nat (length rest) / perPage < Z.of_nat fuel ->
    let run := (Pagination.listAll_loop fetchPage fuel perPage page s).1 in
    Pagination.items_of run = rest /\
    Pagination.ending run = Returned /\
    Z.of_nat (Pagination.fetches run) = Z.of_nat (length rest) / perPage + 1.
Proof.
  intros Hper Hserve.
  induction fuel as [|fuel IH]; intros page s Hpage; cbv zeta; intros Hfuel.
  { assert (0 <= Z.of_nat (length (drop (Z.to_nat ((page - 1) * perPage)) data)) / perPage)
      by (apply Z.div_pos; lia).
    lia. }
  simpl. specialize (Hserve page s Hpage).
  destruct (fetchPage page perPage s) as [fetched s1]. simpl in Hserve. subst fetched.
  unfold Pagination.page_of.
  set (rest := drop (Z.to_nat ((page - 1) * perPage)) data) in *.
  rewrite length_take.
  destruct (Z.ltb_spec (Z.of_nat (Z.to_nat perPage `min` length rest)) perPage) as [Hshort|Hfull].
  - simpl. assert (Hlen : (length rest < Z.to_nat perPage)%nat) by lia.
    split_and!; [apply take_ge; lia|done|].
    rewrite Z.div_small; lia.
  - assert (Hlen : (Z.to_nat perPage <= length rest)%nat) by lia.
    assert (Hnext : drop (Z.to_nat ((page + 1 - 1) * perPage)) data
                    = drop (Z.to_nat perPage) rest).
    { unfold rest. rewrite drop_drop. f_equal. nia. }
    assert (Hdiv : Z.of_nat (length rest) / perPage
                   = Z.of_nat (length (drop (Z.to_nat perPage) rest)) / perPage + 1).
    { rewrite length_drop.
      replace (Z.of_nat (length rest))
        with (Z.of_nat (length rest - Z.to_nat perPage) + 1 * perPage) at 1 by lia.
      rewrite Z.div_add; lia. }
    specialize (IH (page + 1) s1 ltac:(lia)). cbv zeta in IH. rewrite Hnext in IH.
    specialize (IH ltac:(lia)).
    destruct (Pagination.listAll_loop fetchPage fuel perPage (page + 1) s1) as [run s2].
    simpl in *. destruct IH as (-> & -> & Hfetches).
    split_and!; [apply take_drop|done|lia].
Qed.

(** X26: [listAll] hands out a paged collection whole.  When the server
    holds [data] and serves it in pages of a positive size [perPage], the
    generator yields exactly the items of [data], in order, and returns; it
    calls [fetchPage] once more than there are full pages, so that a
    collection that fills its last page costs one call that brings nothing. *)
Theorem listAll_yields_all (data : list T) (perPage : option Z) (fuel : nat) (s : S) :
  0 < default 30 perPage ->
  (forall page s,
     1 <= page ->
     (fetchPage page (default 30 perPage) s).1
     = Resolved (Pagination.page_of data (default 30 perPage) page)) ->
  Z.of_nat (length data) / default 30 perPage < Z.of_nat fuel ->
  let run := (Pagination.listAll fetchPage fuel perPage s).1 in
  Pagination.items_of run = data /\
  Pagination.ending run = Returned /\
  Z.of_nat (Pagination.fetches run) = Z.of_nat (length data) / default 30 perPage + 1.
Proof.
  intros Hper Hserve Hfuel. cbv zeta. unfold Pagination.listAll.
  by apply (listAll_loop_data data (default 30 perPage) fuel Hper Hserve 1 s).
Qed.

Lemma listAll_loop_never_ends (perPage : Z) (fuel : nat) :
  perPage <= 0 ->
  (forall page s, exists items, (fetchPage page perPage s).1 = Resolved items) ->
  forall page s,
    let run := (Pagination.listAll_loop fetchPage fuel perPage page s).1 in
    Pagination.ending run = Running /\ Pagination.fetches run = fuel.
Proof.
  intros Hper Hserve. induction fuel as [|fuel IH]; intros page s; cbv zeta; [done|].
  simpl. destruct (Hserve page s) as [items Hitems].
  destruct (fetchPage page perPage s) as [fetched s1]. simpl in Hitems. subst fetched.
  destruct (Z.ltb_spec (Z.of_nat (length items)) perPage) as [Hshort|_]; [lia|].
  specialize (IH (page + 1) s1). cbv zeta in IH.
  destruct (Pagination.listAll_loop fetchPage fuel perPage (page + 1) s1) as [run s2].
  simpl in *. destruct IH as [-> ->]. done.
Qed.

(** X27: a page size that is not positive never ends.  As long as
    [fetchPage] answers, no page is shorter than such a size, so [listAll]
    asks for page after page: whatever the number of rounds, it is still
    running and has called [fetchPage] in each of them. *)
Theorem listAll_never_ends (perPage : option Z) (fuel : nat) (s : S) :
  default 30 perPage <= 0 ->
  (forall page s, exists items, (fetchPage page (default 30 perPage) s).1 = Resolved items) ->
  let run := (Pagination.listAll fetchPage fuel perPage s).1 in
  Pagination.ending run = Running /\ Pagination.fetches run = fuel.
Proof.
  intros Hper Hserve. cbv zeta. unfold Pagination.listAll.
  by apply (listAll_loop_never_ends (default 30 perPage) fuel Hper Hserve 1 s).
Qed.
End PaginationProperties.
(** ** Examples *)

#[local] Existing Instance example_runtime.

(** The default configuration at attempt 2: a delay of 2000 ms, not above
    the delay of attempt 3. *)
Lemma calculateDelay_spec_witness :
  calculateDelay 2 DEFAULT_RETRY_CONFIG None = 2000 /\
  calculateDelay 2 DEFAULT_RETRY_CONFIG None <= calculateDelay (2 + 1) DEFAULT_RETRY_CONFIG None.
Proof.
  destruct (calculateDelay_spec 2 DEFAULT_RETRY_CONFIG) as (_ & Hdelay & _ & Hmono); [lia|].
  split; [exact Hdelay|].
  apply Hmono; simpl; lia.
Defined.

(** A 503, then a 404: the run ends at the 404 and rejects with it; the
    third entry of the script is never played. *)
Lemma withRetry_non_retryable_short_circuit_witness :
  (withRetry (scripted [Rejected unavailable; Rejected not_found; Resolved 42]
                       (Rejected JsUndefined)) None None 0%nat).1.1
  = Some (Rejected not_found).
Proof.
  apply (withRetry_non_retryable_short_circuit
           (scripted [Rejected unavailable; Rejected not_found; Resolved 42]
                     (Rejected JsUndefined)) None None 0%nat
           [EvAttempt 1 (Rejected unavailable); EvSleep 1000] [] 2 404 not_found).
  - reflexivity.
  - reflexivity.
  - intros Hin. apply includes_elem_of in Hin. discriminate Hin.
Defined.

(** Under the default configuration an attempt function that always fails
    with 503 is called three times, and the rejection is the error of the
    third call. *)
Lemma withRetry_exhausts_witness :
  let run := withRetry fails_in_turn None None 0%nat in
  run.1.2 = 3%nat /\
  run.1.1 = Some (Rejected (StravaServerError "Service Unavailable" (Some 503) (JsNumber 2))) /\
  invocations run.2 = 3%nat.
Proof.
  destruct (withRetry_exhausts fails_in_turn None None 0%nat)
    as (Hcalls & Hcount & (e & Hout & Hlast) & _).
  { intros calls. eexists _, (Datatypes.S calls). split; reflexivity. }
  specialize (Hlast ltac:(simpl; lia)).
  cbv zeta. split_and!.
  - exact (f_equal snd Hcalls).
  - rewrite Hout. injection Hlast as <-. reflexivity.
  - exact Hcount.
Defined.

(** With [maxAttempts = 0] the attempt function is not called. *)
Lemma withRetry_no_attempts_witness :
  withRetry (failing unavailable) (Some no_attempts) None 0%nat
  = (Some (Rejected JsUndefined), 0%nat, []).
Proof.
  apply (withRetry_no_attempts (failing unavailable) (Some no_attempts) None 0%nat).
  simpl. lia.
Defined.

(** Three identical calls at 1000, 2000 and 5999 ms and a sweep at 5000 ms,
    with the default window of 5000 ms: only the factory of the first call is
    invoked. *)
Lemma getOrCreate_single_flight_witness :
  let this := new_RequestDeduplicator None 1 in
  let first := getOrCreate "GET" "/athlete" None JsUndefined "first" 1000 this [] in
  let rest :=
    run_ops [OpGetOrCreate "GET" "/athlete" None JsUndefined "second" 2000;
             OpCleanup 5000;
             OpGetOrCreate "GET" "/athlete" None JsUndefined "third" 5999]
            first.1.2 first.2 in
  first.2 = ["first"] /\ rest.2 = first.2 /\ rest.1.1 = [first.1.1; first.1.1].
Proof.
  apply (getOrCreate_single_flight "GET" "/athlete" None JsUndefined
           "first" 1000 (new_RequestDeduplicator None 1) []).
  - exact I.
  - repeat constructor.
  - repeat constructor; simpl; lia.
Defined.

(** Two identical calls 5000 ms apart, with the default window of 5000 ms:
    both factories are invoked. *)
Lemma getOrCreate_expiry_witness :
  let this := new_RequestDeduplicator None 1 in
  let first := getOrCreate "GET" "/athlete" None JsUndefined "first" 1000 this [] in
  let second :=
    getOrCreate "GET" "/athlete" None JsUndefined "second" 6000 first.1.2 first.2 in
  second.2 = ["first"; "second"] /\ first.1.1 ≠ second.1.1.
Proof.
  destruct (getOrCreate_expiry "GET" "/athlete" None JsUndefined
              "first" "second" 1000 6000 (new_RequestDeduplicator None 1) [])
    as [(Hworld & Hdistinct & _) _].
  - exact I.
  - simpl. lia.
  - split; [exact Hworld | exact Hdistinct].
Defined.

(** A response with status 503. *)
Lemma createErrorFromResponse_5xx_witness :
  error_class (createErrorFromResponse service_unavailable) = Some ClsStravaServerError /\
  isRetryable (statusCodeOf (createErrorFromResponse service_unavailable))
              DEFAULT_RETRY_CONFIG = true.
Proof.
  destruct (createErrorFromResponse_5xx service_unavailable) as (_ & Hlisted & _).
  - simpl. lia.
  - apply Hlisted. simpl. rewrite !elem_of_cons. tauto.
Defined.

(** C7 as stated fails: a response with status 501 is in the 5xx range, yet
    its error is a plain [StravaError], not a [StravaServerError], and the
    default configuration does not retry it. *)
Lemma createErrorFromResponse_501_not_server_error :
  let error := createErrorFromResponse not_implemented in
  500 <= status not_implemented <= 599 /\
  ok not_implemented = false /\
  error = StravaError "HTTP 501: Not Implemented" (Some 501) (JsString "") /\
  ~ (error_class error = Some ClsStravaServerError /\
     isRetryable (statusCodeOf error) DEFAULT_RETRY_CONFIG = true).
Proof.
  cbv zeta. split_and!; [simpl; lia | simpl; lia | done | done |].
  intros [Hclass _]. vm_compute in Hclass. discriminate Hclass.
Qed.

(** A call aborted under the default timeout, without a rate limiter:
    before the response is there, and while the body of a 200 is read. *)
Lemma makeRequest_timeout_witness :
  makeRequest fetch_aborted (fun data => data) DEFAULT_TIMEOUT None 0%nat
  = (Rejected (StravaError "Request timeout after 30000ms" None
                 (JsError "AbortError" "The signal has been aborted")), 1%nat) /\
  (makeRequest (fetch_answers (aborted_body 200 "OK")) (fun data => data) DEFAULT_TIMEOUT None
               0%nat).1
  = Rejected (StravaError "Request timeout after 30000ms" None
                (JsError "AbortError" "The signal has been aborted")).
Proof.
  split.
  - destruct (makeRequest_timeout fetch_aborted (fun data => data)
                DEFAULT_TIMEOUT None 0%nat 0%nat 1%nat "The signal has been aborted")
      as (_ & Hrun & _).
    + reflexivity.
    + left. reflexivity.
    + apply Hrun. reflexivity.
  - destruct (makeRequest_timeout (fetch_answers (aborted_body 200 "OK")) (fun data => data)
                DEFAULT_TIMEOUT None 0%nat 0%nat 1%nat "The signal has been aborted")
      as (Hrun & _).
    + reflexivity.
    + right. exists (aborted_body 200 "OK"). split_and!; reflexivity.
    + exact Hrun.
Defined.

(** C8 as stated fails: when the timeout aborts the call while the body of
    a 404 is read, [createErrorFromResponse] swallows the abort and the
    attempt rejects with the error of the status, which has a status code
    and is not retried. *)
Lemma makeRequest_abort_while_reading_error_body :
  let response := aborted_body 404 "Not Found" in
  let failure := StravaNotFoundError "HTTP 404: Not Found" (Some 404) JsUndefined in
  let run :=
    makeRequest (fetch_answers response) (fun data => data) DEFAULT_TIMEOUT None 0%nat in
  json response = Rejected (JsError "AbortError" "The signal has been aborted") /\
  text response = Rejected (JsError "AbortError" "The signal has been aborted") /\
  run.1 = Rejected failure /\
  run.1 <> Rejected (StravaError "Request timeout after 30000ms" None
                       (JsError "AbortError" "The signal has been aborted")) /\
  statusCodeOf failure = Some 404 /\
  isRetryable (statusCodeOf failure) DEFAULT_RETRY_CONFIG = false /\
  (request (fetch_answers response) (fun data => data) DEFAULT_TIMEOUT None None 0%nat).2
  = [EvAttempt 1 (Rejected failure)].
Proof. cbv zeta. split_and!; done. Qed.

(** A token that expires at second 2000, in a [MemoryTokenStore]: at second
    1800 it is refreshed, at second 1000 it is returned as it is. *)
Lemma getToken_refresh_on_expiry_witness :
  (exists refreshed,
     getToken endpoint_grants manager 1800000 (Some (stored_token (Some 7)))
     = (Resolved (Some refreshed), Some refreshed,
        [EvStoreGet; EvRefreshExchange "old-refresh" "12345" "secret"; EvStoreSet refreshed]) /\
     accessToken refreshed = "new-access" /\
     scope refreshed = Some "read,activity:read_all" /\
     athleteId refreshed = Some 7) /\
  getToken endpoint_grants manager 1000000 (Some (stored_token (Some 7)))
  = (Resolved (Some (stored_token (Some 7))), Some (stored_token (Some 7)), [EvStoreGet]).
Proof.
  destruct (getToken_refresh_on_expiry (TS := MemoryTokenStore) endpoint_grants manager 1800000
              (Some (stored_token (Some 7))) (Some (stored_token (Some 7)))
              (stored_token (Some 7)) eq_refl) as [Hexpired _].
  destruct (getToken_refresh_on_expiry (TS := MemoryTokenStore) endpoint_grants manager 1000000
              (Some (stored_token (Some 7))) (Some (stored_token (Some 7)))
              (stored_token (Some 7)) eq_refl) as [_ Hfresh].
  split.
  - destruct (Hexpired ltac:(by vm_compute) _ eq_refl (fun _ => eq_refl))
      as (refreshed & Hrun & Haccess & _ & _ & _ & Hscope & Hathlete & _).
    exists refreshed. split_and!; [exact Hrun | exact Haccess | exact Hscope |].
    apply Hathlete; [reflexivity | lia].
  - apply Hfresh. by vm_compute.
Defined.

(** C5 as stated fails: the stored token has athlete id 0, the response of
    the refresh has no athlete, and the refreshed record has no athlete id
    instead of the old one. *)
Lemma getToken_zero_athleteId_not_carried :
  let old := stored_token (Some 0) in
  let run := getToken endpoint_grants manager 1800000 (Some old) in
  expiresAt old <= 1800000 / 1000 + 300 /\
  (exists newToken,
     refreshAccessToken endpoint_grants (refreshToken old) (clientId manager)
                        (clientSecret manager) = Resolved newToken /\
     athleteId newToken = None) /\
  exists refreshed,
    run = (Resolved (Some refreshed), Some refreshed,
           [EvStoreGet; EvRefreshExchange "old-refresh" "12345" "secret";
            EvStoreSet refreshed]) /\
    athleteId refreshed = None /\
    athleteId refreshed <> athleteId old.
Proof.
  cbv zeta. split_and!.
  - by vm_compute.
  - eexists. split; [reflexivity|reflexivity].
  - eexists. split_and!; [reflexivity|reflexivity|discriminate].
Qed.

(** The token endpoint answers 400: the [MemoryTokenStore] ends up empty
    and the [StravaAuthError] of the exchange is thrown. *)
Lemma getToken_refresh_failure_witness :
  getToken endpoint_refuses manager 1800000 (Some (stored_token (Some 7)))
  = (Rejected (StravaAuthError "Failed to refresh token: Bad Request" (Some 400)
                 (JsObject [("message", JsString "Bad Request")])),
     None,
     [EvStoreGet; EvRefreshExchange "old-refresh" "12345" "secret"; EvStoreClear]).
Proof.
  destruct (getToken_refresh_failure (TS := MemoryTokenStore) endpoint_refuses manager 1800000
              (Some (stored_token (Some 7))) (Some (stored_token (Some 7)))
              (stored_token (Some 7))
              (StravaAuthError "Failed to refresh token: Bad Request" (Some 400)
                 (JsObject [("message", JsString "Bad Request")])))
    as [Hcleared _].
  - reflexivity.
  - by vm_compute.
  - reflexivity.
  - apply (Hcleared None). reflexivity.
Defined.

(** C6 as stated fails: when [clear()] itself rejects, the rejection of
    [getToken] is the error of [clear()], not the error of the exchange, and
    the store still holds the token. *)
Lemma getToken_refresh_failure_clear_rejects :
  let old := stored_token (Some 7) in
  let refused :=
    StravaAuthError "Failed to refresh token: Bad Request" (Some 400)
      (JsObject [("message", JsString "Bad Request")]) in
  let run := getToken (TS := stuck_store) endpoint_refuses manager 1800000 (Some old) in
  store_get (TokenStore := stuck_store) (Some old) = (Resolved (Some old), Some old) /\
  expiresAt old <= 1800000 / 1000 + 300 /\
  refreshAccessToken endpoint_refuses (refreshToken old) (clientId manager)
                     (clientSecret manager) = Rejected refused /\
  run = (Rejected (JsError "Error" "EACCES: permission denied"), Some old,
         [EvStoreGet; EvRefreshExchange "old-refresh" "12345" "secret"; EvStoreClear]) /\
  run.1.1 <> Rejected refused /\
  run.1.2 <> None.
Proof. cbv zeta. split_and!; [done|by vm_compute|done|done|done|done]. Qed.

(** The scenario of the specification: two attempts answered with 503, the
    third with 200 and the body [{"id": 42}]; the run sleeps 1000 ms and
    2000 ms and resolves with the parsed body. *)
Example request_recovers_after_two_503 :
  let body := JsObject [("id", JsNumber 42)] in
  let answer (calls : nat) :=
    if (calls <? 2)%nat then service_unavailable
    else {| status := 200; statusText := "OK"; headers_get := fun _ => None;
            json := Resolved body; text := Resolved "{}" |} in
  let fetch (calls : nat) := (Resolved (answer calls), Datatypes.S calls) in
  let run := request fetch (fun data => data) DEFAULT_TIMEOUT None None 0%nat in
  run.1.1 = Some (Resolved body) /\ run.1.2 = 3%nat /\ sleeps run.2 = [1000; 2000].
Proof. cbv zeta. split_and!; reflexivity. Qed.

(** A rate-limit failure with a retry-after hint of 3 seconds: the hint
    replaces the computed backoff. *)
Example request_honours_retry_after :
  let limited := StravaRateLimitError "Rate Limit Exceeded" (Some 429) JsNull (Some (Num 3)) None None in
  sleeps (withRetry (failing limited) None (Some retryAfterOf) 0%nat).2 = [3000; 3000].
Proof. reflexivity. Qed.

(** The cache key lists the query parameters in the order of their names. *)
Example generateKey_sorts_query :
  generateKey "GET" "/athlete/activities"
    (Some (<["per_page" := JsNumber 30]> (<["page" := JsNumber 1]> ∅))) JsUndefined
  = "GET|/athlete/activities|page=1&per_page=30".
Proof. vm_compute. reflexivity. Qed.

(** An empty query object still adds a part to the key. *)
Example generateKey_empty_query :
  generateKey "GET" "/athlete" (Some ∅) JsUndefined = "GET|/athlete|" /\
  generateKey "GET" "/athlete" None JsUndefined = "GET|/athlete".
Proof. vm_compute. done. Qed.

(** Under the default configuration an attempt function that always fails
    with 503: three calls, with sleeps of 1000 and 2000 ms in between. *)
Lemma withRetry_run_shape_witness :
  (withRetry fails_in_turn None None 0%nat).2
  = [EvAttempt 1 (Rejected (StravaServerError "Service Unavailable" (Some 503) (JsNumber 0)));
     EvSleep 1000;
     EvAttempt 2 (Rejected (StravaServerError "Service Unavailable" (Some 503) (JsNumber 1)));
     EvSleep 2000;
     EvAttempt 3 (Rejected (StravaServerError "Service Unavailable" (Some 503) (JsNumber 2)))].
Proof.
  destruct (withRetry_run_shape fails_in_turn None None 0%nat) as [Hshape _].
  exact (eq_trans Hshape eq_refl).
Defined.

(** A 503, then a 404: two calls, and the run rejects with the 404 of the
    second. *)
Lemma withRetry_settles_as_last_attempt_witness :
  let run :=
    withRetry (scripted [Rejected unavailable; Rejected not_found; Resolved 42]
                        (Rejected JsUndefined)) None None 0%nat in
  run.1.2 = 2%nat /\ run.1.1 = Some (Rejected not_found).
Proof.
  destruct (withRetry_settles_as_last_attempt
              (scripted [Rejected unavailable; Rejected not_found; Resolved 42]
                        (Rejected JsUndefined)) None None 0%nat)
    as (Hcalls & Hout & _).
  split.
  - exact (eq_trans (f_equal snd Hcalls) eq_refl).
  - exact (eq_trans Hout eq_refl).
Defined.

(** A 503, then an answer: the run stops at the answer and resolves with
    it. *)
Lemma withRetry_success_stops_witness :
  ([] : list (RetryEvent Z)) = [] /\
  (withRetry (scripted [Rejected unavailable; Resolved 42] (Rejected JsUndefined))
             None None 0%nat).1.1
  = Some (Resolved 42).
Proof.
  apply (withRetry_success_stops
           (scripted [Rejected unavailable; Resolved 42] (Rejected JsUndefined))
           None None 0%nat [EvAttempt 1 (Rejected unavailable); EvSleep 1000] [] 2 42).
  reflexivity.
Defined.

(** Two 503s, then an answer, under the default configuration: three calls,
    sleeps of 1000 and 2000 ms. *)
Lemma withRetry_recovers_witness :
  let run :=
    withRetry (scripted (map Rejected [unavailable; unavailable] ++ [Resolved 42])
                        (Rejected JsUndefined)) None None 0%nat in
  run.1 = (Some (Resolved 42), 3%nat) /\
  attempts run.2 = map Rejected [unavailable; unavailable] ++ [Resolved 42] /\
  sleeps run.2 = [1000; 2000].
Proof.
  apply (withRetry_recovers [unavailable; unavailable] 42 (Rejected JsUndefined) None None).
  - repeat constructor.
  - simpl. lia.
Defined.

(** Two identical calls 6500 ms apart and a sweep in between: with or
    without the sweep, the callers get the same promises and the same
    factories are invoked. *)
Lemma sweep_is_invisible_witness :
  let ops :=
    [OpGetOrCreate "GET" "/athlete" None JsUndefined "first" 1000;
     OpCleanup 7000;
     OpGetOrCreate "GET" "/athlete" None JsUndefined "second" 7500] in
  let this := new_RequestDeduplicator None 1 in
  (run_ops ops this []).1.1 = (run_ops (calls_only ops) this []).1.1 /\
  (run_ops ops this []).2 = (run_ops (calls_only ops) this []).2.
Proof.
  apply (sweep_is_invisible
           [OpGetOrCreate "GET" "/athlete" None JsUndefined "first" 1000;
            OpCleanup 7000;
            OpGetOrCreate "GET" "/athlete" None JsUndefined "second" 7500]
           0 (new_RequestDeduplicator None 1) []).
  simpl. lia.
Defined.

(** A new deduplicator and two calls for different paths. *)
Lemma run_ops_invariants_witness :
  let run :=
    run_ops [OpGetOrCreate "GET" "/athlete" None JsUndefined "first" 1000;
             OpGetOrCreate "GET" "/athlete/zones" None JsUndefined "second" 1500]
            (new_RequestDeduplicator None 1) [] in
  cache_in_world run.1.2 run.2 /\
  Forall (fun p => (p < length run.2)%nat) run.1.1 /\
  length run.1.1 = 2%nat /\
  (exists invoked, run.2 = [] ++ invoked /\ (length invoked <= 2)%nat) /\
  windowMs run.1.2 = 5000.
Proof.
  apply (run_ops_invariants
           [OpGetOrCreate "GET" "/athlete" None JsUndefined "first" 1000;
            OpGetOrCreate "GET" "/athlete/zones" None JsUndefined "second" 1500]
           (new_RequestDeduplicator None 1) []).
  intros key cached Hcached. simpl in Hcached. by rewrite lookup_empty in Hcached.
Defined.

(** A request without a body and one with the body [null], 500 ms apart:
    the second caller is given the promise of the first. *)
Lemma generateKey_collisions_witness :
  let this := new_RequestDeduplicator None 1 in
  let first := getOrCreate "GET" "/athlete" None JsUndefined "first" 1000 this [] in
  let second := getOrCreate "GET" "/athlete" None JsNull "second" 1500 first.1.2 first.2 in
  second.1.1 = first.1.1 /\ second.2 = [] ++ ["first"].
Proof.
  destruct (generateKey_collisions (F := string) "GET" "/athlete" None JsUndefined)
    as (_ & _ & Hshared).
  apply (Hshared "GET" "/athlete" None JsNull "first" "second" 1000 1500
           (new_RequestDeduplicator None 1) []).
  - reflexivity.
  - exact I.
  - simpl. lia.
Defined.

(** A network that answers 503, without a rate limiter. *)
Lemma makeRequest_outcomes_witness :
  (makeRequest (fetch_answers service_unavailable) (fun data => data) DEFAULT_TIMEOUT None
               0%nat).1
  = Rejected (createErrorFromResponse service_unavailable).
Proof.
  destruct (makeRequest_outcomes (fetch_answers service_unavailable) (fun data => data)
              DEFAULT_TIMEOUT None 0%nat 0%nat eq_refl) as (_ & Hhttp & _).
  apply (Hhttp service_unavailable); reflexivity.
Defined.

(** A network that answers 404, under the default configuration: one call,
    no sleep. *)
Lemma request_fatal_status_witness :
  let run :=
    request (fetch_answers (empty_response 404 "Not Found")) (fun data => data)
            DEFAULT_TIMEOUT None None 0%nat in
  run.1.1 = Some (Rejected (createErrorFromResponse (empty_response 404 "Not Found"))) /\
  run.2 = [EvAttempt 1 (Rejected (createErrorFromResponse (empty_response 404 "Not Found")))].
Proof.
  apply (request_fatal_status (fetch_answers (empty_response 404 "Not Found"))
           (fun data => data) DEFAULT_TIMEOUT None None 0%nat 0%nat
           (empty_response 404 "Not Found")).
  - reflexivity.
  - reflexivity.
  - reflexivity.
  - intros Hin. apply includes_elem_of in Hin. discriminate Hin.
  - simpl. lia.
Defined.

(** A network on which every call is aborted, under the default
    configuration: the first attempt is followed by a sleep of 1000 ms. *)
Lemma request_retries_failures_without_status_witness :
  exists message,
    (makeRequest fetch_aborted (fun data => data) DEFAULT_TIMEOUT None 0%nat).1
    = Rejected (StravaError message None (JsError "AbortError" "The signal has been aborted")) /\
    exists rest,
      (request fetch_aborted (fun data => data) DEFAULT_TIMEOUT None None 0%nat).2
      = EvAttempt 1 (Rejected (StravaError message None
                                 (JsError "AbortError" "The signal has been aborted")))
          :: EvSleep 1000 :: rest.
Proof.
  destruct (request_retries_failures_without_status fetch_aborted (fun data => data)
              DEFAULT_TIMEOUT None None 0%nat 0%nat
              (JsError "AbortError" "The signal has been aborted")
              eq_refl (or_introl eq_refl) eq_refl) as (message & Hattempt & Hretry).
  exists message. split; [exact Hattempt|].
  apply Hretry. simpl. lia.
Defined.

(** A 429 with [Retry-After: 3], under the default configuration: the
    first attempt is followed by a sleep of 3000 ms.  With a date in the
    header [parseInt] yields [NaN], and the sleep is the backoff of
    1000 ms. *)
Lemma request_rate_limited_witness :
  (let error := createErrorFromResponse (too_many_requests "3") in
   error_class error = Some ClsStravaRateLimitError /\
   error_retryAfter error = Some (Num 3) /\
   exists rest,
     (request (fetch_answers (too_many_requests "3"))
              (fun data => data) DEFAULT_TIMEOUT None None 0%nat).2
     = EvAttempt 1 (Rejected error) :: EvSleep 3000 :: rest) /\
  (let error := createErrorFromResponse (too_many_requests "Wed, 21 Oct 2015 07:28:00 GMT") in
   error_class error = Some ClsStravaRateLimitError /\
   error_retryAfter error = Some NaN /\
   exists rest,
     (request (fetch_answers (too_many_requests "Wed, 21 Oct 2015 07:28:00 GMT"))
              (fun data => data) DEFAULT_TIMEOUT None None 0%nat).2
     = EvAttempt 1 (Rejected error) :: EvSleep 1000 :: rest).
Proof.
  split.
  - apply (request_rate_limited (RT := example_runtime) (fetch_answers (too_many_requests "3"))
             (fun data => data) DEFAULT_TIMEOUT None None 0%nat 0%nat (too_many_requests "3")).
    + reflexivity.
    + reflexivity.
    + reflexivity.
    + simpl. rewrite !elem_of_cons. tauto.
    + simpl. lia.
  - apply (request_rate_limited (RT := example_runtime)
             (fetch_answers (too_many_requests "Wed, 21 Oct 2015 07:28:00 GMT"))
             (fun data => data) DEFAULT_TIMEOUT None None 0%nat 0%nat
             (too_many_requests "Wed, 21 Oct 2015 07:28:00 GMT")).
    + reflexivity.
    + reflexivity.
    + reflexivity.
    + simpl. rewrite !elem_of_cons. tauto.
    + simpl. lia.
Defined.

(** A rate limiter that refuses: the network is not called, and under the
    default configuration the first attempt is followed by a sleep of
    1000 ms. *)
Lemma request_admission_refused_witness :
  makeRequest (fetch_answers service_unavailable) (fun data => data) DEFAULT_TIMEOUT
              (Some refusing_limiter) 0%nat
  = (Rejected (JsError "Error" "Rate limit exceeded"), 0%nat) /\
  exists rest,
    (request (fetch_answers service_unavailable) (fun data => data) DEFAULT_TIMEOUT
             (Some refusing_limiter) None 0%nat).2
    = EvAttempt 1 (Rejected (JsError "Error" "Rate limit exceeded")) :: EvSleep 1000 :: rest.
Proof.
  destruct (request_admission_refused (fetch_answers service_unavailable) (fun data => data)
              DEFAULT_TIMEOUT (Some refusing_limiter) None 0%nat 0%nat
              (JsError "Error" "Rate limit exceeded") eq_refl) as [Hattempt Hretry].
  split; [exact Hattempt|].
  apply Hretry; [reflexivity | simpl; lia].
Defined.

(** Two responses a quarter of an hour and more apart, with a reading in
    between: at the end one request counts for the short-term window. *)
Lemma limiter_usage_is_exact_witness :
  let ops :=
    [Limiter.OpResponse (usage_headers "1,1" "2,2") 1000 1000;
     Limiter.OpRead 2000;
     Limiter.OpResponse (usage_headers "1,1" "2,2") 1000000 1000000] in
  let this : LimiterState unit := Limiter.new None in
  Limiter.usage_of ShortTerm (Limiter.getRateLimitInfo 1000000 (Limiter.run ops this)).1
  = Some (Num (Z.of_nat (length (keep_recent (1000000 - Limiter.window_of ShortTerm this)
                                   (Limiter.requests_of ShortTerm this
                                    ++ Limiter.recorded ShortTerm ops))))) /\
  Limiter.usage_of ShortTerm (Limiter.getRateLimitInfo 1000000 (Limiter.run ops this)).1
  = Some (Num 1).
Proof.
  split; [|reflexivity].
  apply (limiter_usage_is_exact
           [Limiter.OpResponse (usage_headers "1,1" "2,2") 1000 1000;
            Limiter.OpRead 2000;
            Limiter.OpResponse (usage_headers "1,1" "2,2") 1000000 1000000]
           ShortTerm (Limiter.new None : LimiterState unit) 0 1000000).
  simpl. lia.
Defined.

(** Two responses that report different usage. *)
Lemma updateFromHeaders_ignores_reported_usage_witness :
  let this : LimiterState unit := Limiter.new None in
  Limiter.updateFromHeaders (usage_headers "1,1" "2,2") 1000 1000 this
  = Limiter.updateFromHeaders (usage_headers "599,29999" "600,30000") 1000 1000 this /\
  forall type,
    (length (Limiter.requests_of type
               (Limiter.updateFromHeaders (usage_headers "1,1" "2,2") 1000 1000 this))
     <= Datatypes.S (length (Limiter.requests_of type this)))%nat.
Proof.
  apply (updateFromHeaders_ignores_reported_usage
           (usage_headers "1,1" "2,2") (usage_headers "599,29999" "600,30000")
           1000 1000 (Limiter.new None : LimiterState unit)).
  - reflexivity.
  - reflexivity.
  - split; intros _; by eexists.
  - split; intros _; by eexists.
Defined.


(** Two scopes of the enum. *)
Lemma parseScopes_formatScopes_witness :
  parseScopes (formatScopes ["read"; "activity:read_all"]) = ["read"; "activity:read_all"].
Proof.
  apply (parseScopes_formatScopes ["read"; "activity:read_all"]). reflexivity.
Defined.

(** A store that cannot be written to: the refreshed token is lost, the
    store is cleared and the error of the write is raised. *)
Lemma getToken_store_failures_witness :
  (getToken (TS := read_only_store) endpoint_grants manager 1800000
            (Some (stored_token (Some 7)))).1
  = (Rejected (JsError "Error" "EROFS: read-only file system"), None).
Proof.
  destruct (getToken_store_failures (TS := read_only_store) endpoint_grants manager 1800000
              (Some (stored_token (Some 7))) (Some (stored_token (Some 7)))
              (Some (stored_token (Some 7))) (stored_token (Some 7)) eq_refl)
    as [Hwrite _].
  - by vm_compute.
  - destruct (Hwrite _ (JsError "Error" "EROFS: read-only file system") eq_refl
                (fun _ => eq_refl)) as [Hrun _].
    exact Hrun.
Defined.

(** The token refreshed at second 1800 is returned again at second 2000,
    without an exchange. *)
Lemma getToken_settles_witness :
  getToken endpoint_grants manager 2000000 (Some refreshed_token)
  = (Resolved (Some refreshed_token), Some refreshed_token, [EvStoreGet]).
Proof.
  destruct (getToken_settles endpoint_grants manager 1800000
              (Some (stored_token (Some 7))) (Some refreshed_token) refreshed_token
              [EvStoreGet; EvRefreshExchange "old-refresh" "12345" "secret";
               EvStoreSet refreshed_token] eq_refl) as (_ & _ & Hagain).
  apply Hagain. by vm_compute.
Defined.

(** The refresh on demand against an endpoint that refuses: the stored
    token stays. *)
Lemma refreshToken_on_demand_witness :
  (Manager.refreshToken endpoint_refuses manager (Some (stored_token (Some 7)))).2
  = Some (stored_token (Some 7)).
Proof.
  destruct (refreshToken_on_demand endpoint_refuses manager (Some (stored_token (Some 7))))
    as [Hfailure _].
  destruct (Hfailure _ eq_refl) as [Hstore _]. exact Hstore.
Defined.

(** Five items in pages of three. *)
Lemma iterate_agrees_with_listAll_witness :
  let gen := Pagination.listAll serves_five 3 (Some 3) 0%nat in
  let loop := Pagination.iterate serves_five 4 (Pagination.new (Some 3)) 0%nat in
  loop.1.1 = gen.1 /\ loop.2 = gen.2 /\
  (Pagination.ending gen.1 = Returned -> Pagination.hasMorePages loop.1.2 = false).
Proof.
  apply (iterate_agrees_with_listAll serves_five 3 (Some 3) 0%nat).
  - simpl. lia.
  - by vm_compute.
Defined.

(** Five items in pages of five: the second call brings nothing. *)
Lemma listAll_yields_all_witness :
  let run := (Pagination.listAll serves_five 2 (Some 5) 0%nat).1 in
  Pagination.items_of run = [1; 2; 3; 4; 5] /\
  Pagination.ending run = Returned /\
  Z.of_nat (Pagination.fetches run) = Z.of_nat (length [1; 2; 3; 4; 5]) / 5 + 1.
Proof.
  apply (listAll_yields_all serves_five [1; 2; 3; 4; 5] (Some 5) 2 0%nat).
  - simpl. lia.
  - intros page s _. reflexivity.
  - by vm_compute.
Defined.

(** A page size of 0: after seven rounds the generator is still running. *)
Lemma listAll_never_ends_witness :
  let run := (Pagination.listAll serves_five 7 (Some 0) 0%nat).1 in
  Pagination.ending run = Running /\ Pagination.fetches run = 7%nat.
Proof.
  apply (listAll_never_ends serves_five (Some 0) 7 0%nat).
  - simpl. lia.
  - intros page s. by eexists.
Defined.
